(** * MovieLens dashboard (hussam_dashboard/app.py): the query layer

    A shallow embedding of the seven tabs of [main] in [app.py] and of the
    two loaders.  The tables are pandas data frames; the embedding keeps

    - a data frame as the list of its rows, in positional order, the index
      being the default [RangeIndex] that [read_csv] creates;
    - a [float64] cell as an exact rational ([Q]); rounding is not modelled,
      and the only missing values are the ones the program can produce
      itself (a null genre in the file, an empty rolling window);
    - an [int64] cell as [Z];
    - an [object] cell holding text as [option string], [None] being NaN.

    pandas and numpy are not part of the repository.  Their operations are
    embedded from their documented behaviour: [groupby] (sorted distinct
    keys, rows of a group in frame order), [sort_values] (single key:
    [nargsort] over numpy's [argsort] with the default [kind="quicksort"],
    which is a sorting permutation that is not promised to be stable and
    whose code numpy picks by CPU; several keys: the stable [lexsort]), [rolling(window, center=True)]
    (fixed window bounds clipped to the series, [min_periods = window]),
    [str.split] on a one-character literal separator and [explode]. *)

From Stdlib Require Import String Ascii.
From Stdlib Require Import List ZArith QArith Bool Lia Arith.
From Stdlib Require Import Permutation Sorted.
Import ListNotations.

Set Implicit Arguments.

(** ** Data model *)

(** One rating event, the columns of [movie_ratings.csv] that [main] reads. *)
Record Row : Type := mkRow {
  user_id  : Z;
  movie_id : Z;
  title    : string;
  genres   : option string;
  rating   : Q;
  year     : Z;
  age      : Z
}.

Definition DataFrame : Type := list Row.

Definition set_genres (g : option string) (r : Row) : Row :=
  mkRow (user_id r) (movie_id r) (title r) g (rating r) (year r) (age r).

(** ** Columns: sums, means, comparisons *)

Definition Zsum (l : list Z) : Z := fold_right Z.add 0%Z l.
Definition Qsum (l : list Q) : Q := fold_right Qplus 0%Q l.

(** [Series.mean()] of a non-empty group. *)
Definition Qmean (l : list Q) : Q :=
  (Qsum l / inject_Z (Z.of_nat (length l)))%Q.

Definition Qlt_bool (x y : Q) : bool := negb (Qle_bool y x).

(** Orders of the grouping keys.  With [dropna=False] the NaN group comes
    after every label. *)
Definition genre_leb (a b : option string) : bool :=
  match a, b with
  | Some x, Some y => String.leb x y
  | Some _, None => true
  | None, Some _ => false
  | None, None => true
  end.

Definition genre_eq_dec (a b : option string) : {a = b} + {a <> b}.
Proof. decide equality. apply string_dec. Defined.

Definition pair_leb {A B} (lea : A -> A -> bool) (eqa : A -> A -> bool)
    (leb : B -> B -> bool) (x y : A * B) : bool :=
  if eqa (fst x) (fst y) then leb (snd x) (snd y) else lea (fst x) (fst y).

Definition Zstr_eq_dec (a b : Z * string) : {a = b} + {a <> b}.
Proof. decide equality; [apply string_dec | apply Z.eq_dec]. Defined.

Definition Zstr_leb : Z * string -> Z * string -> bool :=
  pair_leb Z.leb Z.eqb String.leb.

(** ** Positional selection and sorting *)

(** [frame.take(indexer)]: the rows at the given positions, in the order of
    the indexer.  numpy raises on a position outside the frame; every
    indexer below comes from [argsort] over the same frame and is in range,
    so the case cannot arise and such a position selects nothing here. *)
Definition iloc {A} (indexer : list nat) (l : list A) : list A :=
  flat_map (fun i => match nth_error l i with
                     | Some x => [x]
                     | None => []
                     end) indexer.

(** numpy's [argsort] with its default kind: what the documentation
    promises is a permutation of the positions that puts the keys in
    order.  The relative order of equal keys is left to the
    implementation. *)
Class Argsort : Type := {
  argsort : forall K : Type, (K -> K -> bool) -> list K -> list nat;
  argsort_perm : forall K (le : K -> K -> bool) (l : list K),
      Permutation (argsort le l) (seq 0 (length l));
  argsort_sorted : forall K (le : K -> K -> bool) (l : list K),
      (forall x y, le x y = true \/ le y x = true) ->
      (forall x y z, le x y = true -> le y z = true -> le x z = true) ->
      StronglySorted (fun x y => le x y = true) (iloc (argsort le l) l)
}.

(** Insertion of [x] in front of the first element that it is not above. *)
Fixpoint insert_by {A} (le : A -> A -> bool) (x : A) (l : list A) : list A :=
  match l with
  | [] => [x]
  | y :: t => if le x y then x :: y :: t else y :: insert_by le x t
  end.

(** Stable sort: the elements are inserted from the right, each in front of
    its equals, so that equal elements keep their order. *)
Definition stable_sort {A} (le : A -> A -> bool) (l : list A) : list A :=
  fold_right (insert_by le) [] l.

(** A position sort by insertion: the positions are paired with their
    keys and the pairs are sorted on the key, [ins] deciding where a key
    goes among its equals. *)
Definition argsort_with (ins : forall K, (K -> K -> bool) -> K -> K -> bool)
    (K : Type) (le : K -> K -> bool) (l : list K) : list nat :=
  map fst (stable_sort (fun a b => ins K le (snd a) (snd b))
                       (combine (seq 0 (length l)) l)).

(** Equal keys keep the order of their positions. *)
Definition ins_le (K : Type) (le : K -> K -> bool) (x y : K) : bool := le x y.

(** *** numpy's [argsort] on a CPU with AVX-512, up to eight keys

    numpy picks the code of [argsort(kind="quicksort")] by CPU.  Where
    AVX-512 is available it hands 64-bit keys to x86-simd-sort, which
    sorts an array of up to eight keys in one register of eight lanes:
    the keys are loaded with their positions, the lanes beyond the array
    hold the largest key, and six compare-and-exchange stages of a
    bitonic network follow ([sort_zmm_64bit]).  A lane gives up its key
    and position only for a key that is strictly smaller (a lane that
    takes the minimum) or strictly larger (a lane that takes the
    maximum): two lanes with equal keys never exchange. *)

(** A lane: a key with its position, or the padding. *)
Definition Lane (K : Type) : Type := option (K * nat).

Definition lane_lt {K} (le : K -> K -> bool) (x y : Lane K) : bool :=
  match x, y with
  | Some (a, _), Some (b, _) => negb (le b a)
  | Some _, None => true
  | None, _ => false
  end.

(** [cmp_merge] on one lane: the key is the minimum or the maximum of the
    lane and its partner, as the mask says, and the position follows the
    key; the lane keeps its own position when the key is its own. *)
Definition cmp_merge {K} (le : K -> K -> bool) (take_max : bool)
    (own partner : Lane K) : Lane K :=
  if take_max
  then (if lane_lt le own partner then partner else own)
  else (if lane_lt le partner own then partner else own).

(** One stage: every lane against its partner; bit [i] of the mask tells
    whether lane [i] takes the maximum. *)
Definition stage {K} (le : K -> K -> bool) (partner : nat -> nat) (mask : nat)
    (reg : list (Lane K)) : list (Lane K) :=
  map (fun i => cmp_merge le (Nat.testbit mask i)
                          (nth i reg None) (nth (partner i) reg None))
      (seq 0 8).

(** The lane permutations of the network: neighbours swapped, each half
    reversed, the register reversed, pairs two lanes apart swapped. *)
Definition shuffle_1111 (i : nat) : nat := Nat.lxor i 1.
Definition network_64bit_1 (i : nat) : nat :=
  if (i <? 4)%nat then (3 - i)%nat else (11 - i)%nat.
Definition network_64bit_2 (i : nat) : nat := (7 - i)%nat.
Definition network_64bit_3 (i : nat) : nat := Nat.lxor i 2.

(** The masks are [0xAA], [0xCC] and [0xF0]. *)
Definition sort_zmm_64bit {K} (le : K -> K -> bool) (reg : list (Lane K))
    : list (Lane K) :=
  let reg := stage le shuffle_1111 170 reg in
  let reg := stage le network_64bit_1 204 reg in
  let reg := stage le shuffle_1111 170 reg in
  let reg := stage le network_64bit_2 240 reg in
  let reg := stage le network_64bit_3 204 reg in
  stage le shuffle_1111 170 reg.

(** The positions of the first [n] lanes after the network. *)
Definition argsort_8_64bit {K} (le : K -> K -> bool) (arr : list K) : list nat :=
  let n := length arr in
  let reg := map Some (combine arr (seq 0 n)) ++ repeat None (8 - n) in
  map (fun lane => match lane with
                   | Some (_, i) => i
                   | None => 0%nat
                   end)
      (firstn n (sort_zmm_64bit le reg)).

(** Whether the keys are in order, and whether an indexer is a
    permutation of the positions that puts them in order. *)
Fixpoint ordered {K} (le : K -> K -> bool) (l : list K) : bool :=
  match l with
  | x :: (y :: _) as t => le x y && ordered le t
  | _ => true
  end.

Definition sorts {K} (le : K -> K -> bool) (arr : list K) (r : list nat) : bool :=
  (if list_eq_dec Nat.eq_dec (stable_sort Nat.leb r) (seq 0 (length arr))
   then true else false)
  && ordered le (iloc r arr).

(** The position sort of an AVX-512 build: nothing to do for at most one
    key, the network for up to eight keys.  The answer of the network is
    checked, so that the contract of [argsort] holds without a proof of
    the network; on a total order the check passes.  Longer arrays take
    paths of x86-simd-sort that are not embedded (several registers
    merged, a partition above 256 keys): for them the stable sort
    answers, which is not numpy's answer. *)
Definition avx512_argsort_fn (K : Type) (le : K -> K -> bool) (arr : list K)
    : list nat :=
  let n := length arr in
  if (n <=? 1)%nat then seq 0 n
  else if (n <=? 8)%nat
       then let r := argsort_8_64bit le arr in
            if sorts le arr r then r else argsort_with ins_le le arr
       else argsort_with ins_le le arr.

Section Sorting.
Context {AS : Argsort}.

(** pandas [nargsort(items, kind, ascending)] without missing keys: a
    descending sort reverses the keys and the positions, sorts, and
    reverses the result. *)
Definition nargsort {K} (le : K -> K -> bool) (items : list K)
    (ascending : bool) : list nat :=
  let idx := seq 0 (length items) in
  if ascending then iloc (argsort le items) idx
  else rev (iloc (argsort le (rev items)) (rev idx)).

(** [frame.sort_values(by, ascending=...)] on one column. *)
Definition sort_values {A K} (by_ : A -> K) (le : K -> K -> bool)
    (ascending : bool) (frame : list A) : list A :=
  iloc (nargsort le (map by_ frame) ascending) frame.
End Sorting.

(** ** Grouping *)

Section GroupBy.
Variables (A K : Type).
Variable eq_dec : forall x y : K, {x = y} + {x <> y}.
Variable le : K -> K -> bool.

(** The group keys: the distinct values of the key column, sorted. *)
Definition group_keys (keys : list K) : list K :=
  stable_sort le (nodup eq_dec keys).

(** The rows of the frame under the key [k], in frame order. *)
Definition rows_of (by_ : A -> K) (k : K) (frame : list A) : list A :=
  filter (fun r => if eq_dec (by_ r) k then true else false) frame.

(** [frame.groupby(by)]: one group per key, holding the rows of the
    frame with that key. *)
Definition groupby (by_ : A -> K) (frame : list A) : list (K * list A) :=
  map (fun k => (k, rows_of by_ k frame)) (group_keys (map by_ frame)).
End GroupBy.

(** The result of [.agg(mean_rating=("rating","mean"),
    n_ratings=("rating","size")).reset_index()]. *)
Record Stats (K : Type) : Type := mkStats {
  key         : K;
  mean_rating : Q;
  n_ratings   : Z
}.

Definition agg {K} (groups : list (K * DataFrame)) : list (Stats K) :=
  map (fun g => mkStats (fst g) (Qmean (map rating (snd g)))
                        (Z.of_nat (length (snd g)))) groups.

(** ** The tabs of [main] *)

(** A row of the Q1 pie chart: [genres], [count], [pct]. *)
Record GenreCount : Type := mkGenreCount {
  gc_genres : option string;
  gc_count  : Z;
  gc_pct    : Q
}.

(** [rolling(window, center=True)] on a series of [n] values uses pandas'
    [FixedWindowIndexer]: the window of position [i] is the slice
    [start:end_] with [end_ = i + 1 + offset], [start = end_ - window],
    both clipped to [0, n]. *)
Definition clip (x lo hi : Z) : Z := Z.min (Z.max x lo) hi.

Definition window_bounds (window n i : Z) : Z * Z :=
  let offset := ((window - 1) / 2)%Z in
  let end_ := (i + 1 + offset)%Z in
  let start := (end_ - window)%Z in
  (clip start 0 n, clip end_ 0 n).

Definition slice {A} (start end_ : Z) (l : list A) : list A :=
  firstn (Z.to_nat (end_ - start)) (skipn (Z.to_nat start) l).

(** [.rolling(window, center=True).mean()]: the mean of the window when it
    holds at least [min_periods = window] values, NaN ([None]) otherwise. *)
Definition rolling_mean (window : Z) (values : list Q) : list (option Q) :=
  let n := Z.of_nat (length values) in
  map (fun i =>
         let (start, end_) := window_bounds window n (Z.of_nat i) in
         let obs := slice start end_ values in
         if (window <=? Z.of_nat (length obs))%Z then Some (Qmean obs) else None)
      (seq 0 (length values)).

(** A row of the Q3 line chart. *)
Record YearRow : Type := mkYearRow {
  yr_year     : Z;
  yr_mean     : Q;
  yr_n        : Z;
  yr_smoothed : option Q
}.

(** [str.split("|")] of Python on a one-character separator: the pieces
    between the separators, an empty string giving one empty piece. *)
Fixpoint split_on (sep : ascii) (s : string) : list string :=
  match s with
  | EmptyString => [EmptyString]
  | String c t =>
      if Ascii.eqb c sep then EmptyString :: split_on sep t
      else match split_on sep t with
           | [] => [String c EmptyString]
           | h :: r => String c h :: r
           end
  end.

Definition pipe : ascii := "|"%char.
Definition no_genres_listed : string := "(no genres listed)"%string.

(** [Series.fillna(value)]. *)
Definition fillna (value : string) (g : option string) : option string :=
  match g with
  | None => Some value
  | Some _ => g
  end.

(** [Series.str.split]: NaN stays NaN. *)
Definition str_split (sep : ascii) (g : option string) : option (list string) :=
  option_map (split_on sep) g.

(** [frame.explode("genres")] over a frame whose genre cells hold lists:
    one row per element, under the index label of the source row; a NaN
    cell or an empty list gives one row with NaN. *)
Definition explode (frame : list (nat * Row * option (list string)))
    : list (nat * Row) :=
  flat_map (fun x =>
              match x with
              | (i, r, Some (t :: ts)) =>
                  map (fun tok => (i, set_genres (Some tok) r)) (t :: ts)
              | (i, r, _) => [(i, set_genres None r)]
              end) frame.

(** [frame["genres"] = column] on a default index: cell by cell. *)
Definition assign_genres (column : list (option string)) (frame : DataFrame)
    : DataFrame :=
  map (fun x => set_genres (fst x) (snd x)) (combine column frame).

(** [Series.isin(values)]; pandas lets NaN match NaN. *)
Definition isin (g : option string) (values : list (option string)) : bool :=
  existsb (fun v => if genre_eq_dec g v then true else false) values.

Definition genre_notna (r : Row) : bool :=
  match genres r with
  | Some _ => true
  | None => false
  end.

Definition age_genre_eq_dec (a b : Z * option string) : {a = b} + {a <> b}.
Proof. decide equality; [apply genre_eq_dec | apply Z.eq_dec]. Defined.

Definition age_genre_leb : Z * option string -> Z * option string -> bool :=
  pair_leb Z.leb Z.eqb genre_leb.

(** The order of [sort_values(["mean_rating", "n_ratings"],
    ascending=[False, False])]: higher mean first, and among equal means
    higher count first. *)
Definition movie_le (a b : Stats (Z * string)) : bool :=
  if Qeq_bool (mean_rating a) (mean_rating b)
  then (n_ratings b <=? n_ratings a)%Z
  else Qle_bool (mean_rating b) (mean_rating a).

Section Queries.
Context {AS : Argsort}.

(** Q1, lines 76-83: [genre_counts] with its [pct] column. *)
Definition genre_sizes (df : DataFrame) : list (option string * Z) :=
  sort_values snd Z.leb false
    (map (fun g => (fst g, Z.of_nat (length (snd g))))
         (groupby genre_eq_dec genre_leb genres df)).

Definition pct_divisor (df : DataFrame) : Z :=
  Z.max (Zsum (map snd (genre_sizes df))) 1.

Definition genre_counts (df : DataFrame) : list GenreCount :=
  map (fun g => mkGenreCount (fst g) (snd g)
                 (100 * inject_Z (snd g) / inject_Z (pct_divisor df))%Q)
      (genre_sizes df).

Definition major (df : DataFrame) (min_pct : Q) : list GenreCount :=
  filter (fun g => Qle_bool min_pct (gc_pct g)) (genre_counts df).

Definition minor (df : DataFrame) (min_pct : Q) : list GenreCount :=
  filter (fun g => Qlt_bool (gc_pct g) min_pct) (genre_counts df).

Definition other_row (df : DataFrame) (min_pct : Q) : GenreCount :=
  mkGenreCount (Some "Other"%string)
               (Zsum (map gc_count (minor df min_pct)))
               (Qsum (map gc_pct (minor df min_pct))).

(** Q1, lines 85-95: [display_df]. *)
Definition Q1 (df : DataFrame) (min_pct : Q) : list GenreCount :=
  match minor df min_pct with
  | [] => major df min_pct
  | _ :: _ => major df min_pct ++ [other_row df min_pct]
  end.

(** Q2, lines 109-116. *)
Definition genre_stats (df : DataFrame) : list (Stats (option string)) :=
  agg (groupby genre_eq_dec genre_leb genres df).

Definition Q2_filtered (df : DataFrame) (min_count : Z)
    : list (Stats (option string)) :=
  filter (fun s => (min_count <=? n_ratings s)%Z) (genre_stats df).

Definition Q2 (df : DataFrame) (min_count : Z) (ascending : bool)
    : list (Stats (option string)) :=
  sort_values (@mean_rating _) Qle_bool ascending (Q2_filtered df min_count).

(** Q3, lines 132-147. *)
Definition year_stats (df : DataFrame) : list (Stats Z) :=
  agg (groupby Z.eq_dec Z.leb year df).

Definition year_filtered (df : DataFrame) (lo hi min_count_year : Z)
    : list (Stats Z) :=
  sort_values (@key _) Z.leb true
    (filter (fun s => ((lo <=? key s) && (key s <=? hi)
                       && (min_count_year <=? n_ratings s))%Z%bool)
            (year_stats df)).

Definition smoothed (smooth_window : Z) (filtered : list (Stats Z))
    : list (option Q) :=
  if ((1 <? smooth_window)%Z && negb (Nat.eqb (length filtered) 0))%bool
  then rolling_mean smooth_window (map (@mean_rating _) filtered)
  else map (fun s => Some (mean_rating s)) filtered.

Definition Q3 (df : DataFrame) (lo hi min_count_year smooth_window : Z)
    : list YearRow :=
  let filtered := year_filtered df lo hi min_count_year in
  map (fun x => mkYearRow (key (fst x)) (mean_rating (fst x))
                          (n_ratings (fst x)) (snd x))
      (combine filtered (smoothed smooth_window filtered)).

(** Q4, lines 160-166. *)
Definition movie_stats (df : DataFrame) : list (Stats (Z * string)) :=
  agg (groupby Zstr_eq_dec Zstr_leb (fun r => (movie_id r, title r)) df).

Definition movie_filtered (df : DataFrame) (min_ratings_movie : Z)
    : list (Stats (Z * string)) :=
  filter (fun s => (min_ratings_movie <=? n_ratings s)%Z) (movie_stats df).

Definition Q4 (df : DataFrame) (min_ratings_movie : Z) (top_n : nat)
    : list (Stats (Z * string)) :=
  firstn top_n (stable_sort movie_le (movie_filtered df min_ratings_movie)).
End Queries.

(** Q5, lines 178-183.  [groupby(["age", "genres"])] keeps its default
    [dropna=True]: rows with a null genre are left out of the groups. *)
Definition Q5 (df : DataFrame) (genres_to_compare : list (option string))
    : list (Stats (Z * option string)) :=
  agg (groupby age_genre_eq_dec age_genre_leb (fun r => (age r, genres r))
         (filter genre_notna
            (filter (fun r => isin (genres r) genres_to_compare) df))).

(** Q6, lines 192-196. *)
Definition Q6 (df : DataFrame) : list (Stats (option string)) :=
  agg (groupby genre_eq_dec genre_leb genres (filter genre_notna df)).

(** Q7, line 209: the column that replaces [df_ec["genres"]]. *)
Definition Q7_filled (df_ec : DataFrame) : DataFrame :=
  assign_genres (map (fun r => fillna no_genres_listed (genres r)) df_ec) df_ec.

(** Q7, line 210: [df_ec.assign(genres=...str.split("|")).explode("genres")]. *)
Definition Q7_cleaned (df_ec : DataFrame) : list (nat * Row) :=
  explode (combine (combine (seq 0 (length df_ec)) df_ec)
                   (map (fun r => str_split pipe (genres r)) df_ec)).

(** ** The loaders *)

Inductive Error : Type :=
| FileNotFoundError
| IndexError
| ParserError.

(** A resolved path, as the list of its components below the root. *)
Definition Path : Type := list string.

(** [p.parents[n]]: the path without its last [n + 1] components;
    [IndexError] when the path is not that deep. *)
Definition parents (p : Path) (n : nat) : option Path :=
  if (n <? length p)%nat then Some (firstn (length p - (n + 1)) p) else None.

Section Loaders.
(** What is stored in a file, and the parser of [pd.read_csv]. *)
Variable Content : Type.
Variable read_csv : Content -> option DataFrame.

Definition FileSystem : Type := Path -> option Content.

Definition pd_read_csv (fs : FileSystem) (data_path : Path)
    : Error + DataFrame :=
  match fs data_path with
  | None => inl FileNotFoundError
  | Some c => match read_csv c with
              | Some df => inr df
              | None => inl ParserError
              end
  end.

(** [load_movie_ratings], lines 12-15; [file_] is [__file__] resolved. *)
Definition load_movie_ratings (file_ : Path) (fs : FileSystem)
    : Error + DataFrame :=
  match parents file_ 2 with
  | None => inl IndexError
  | Some dir =>
      let data_path := dir ++ ["data"%string; "movie_ratings.csv"%string] in
      pd_read_csv fs data_path
  end.

(** [load_movie_ratings_ec], lines 19-22. *)
Definition load_movie_ratings_ec (file_ : Path) (fs : FileSystem)
    : Error + DataFrame :=
  match parents file_ 2 with
  | None => inl IndexError
  | Some dir =>
      let data_path := dir ++ ["data"%string; "movie_ratings.csv"%string] in
      pd_read_csv fs data_path
  end.
End Loaders.

(** ** The tables of [main] as mutable objects *)

(** The two frames that [main] holds: [df], loaded once at the top, and
    [df_ec], loaded in the Q7 tab.  Each call of a loader hands out a frame
    of its own, so the two are distinct objects. *)
Record Heap : Type := mkHeap {
  h_df    : DataFrame;
  h_df_ec : DataFrame
}.

Definition M (A : Type) : Type := Heap -> A * Heap.

Definition ret {A} (a : A) : M A := fun h => (a, h).

Definition bind {A B} (m : M A) (k : A -> M B) : M B :=
  fun h => let (a, h') := m h in k a h'.

Notation "x <- m ;; k" := (bind m (fun x => k))
  (at level 61, m at next level, right associativity).
Notation "m ;;; k" := (bind m (fun _ => k))
  (at level 61, right associativity).

Definition read_df : M DataFrame := fun h => (h_df h, h).
Definition read_df_ec : M DataFrame := fun h => (h_df_ec h, h).

(** [df_ec["genres"] = column]: the frame bound to [df_ec] is updated in
    place. *)
Definition store_genres_ec (column : list (option string)) : M unit :=
  fun h => (tt, mkHeap (h_df h) (assign_genres column (h_df_ec h))).

Definition head {A} (n : nat) (l : list A) : list A := firstn n l.

Section Tabs.
Context {AS : Argsort}.

Definition tab_Q1 (min_pct : Q) : M (list GenreCount) :=
  df <- read_df ;; ret (Q1 df min_pct).

Definition tab_Q2 (min_count : Z) (ascending : bool)
    : M (list (Stats (option string))) :=
  df <- read_df ;; ret (Q2 df min_count ascending).

Definition tab_Q3 (lo hi min_count_year smooth_window : Z)
    : M (list YearRow) :=
  df <- read_df ;; ret (Q3 df lo hi min_count_year smooth_window).

Definition tab_Q4 (min_ratings_movie : Z) (top_n : nat)
    : M (list (Stats (Z * string))) :=
  df <- read_df ;; ret (Q4 df min_ratings_movie top_n).

Definition tab_Q5 (genres_to_compare : list (option string))
    : M (list (Stats (Z * option string))) :=
  df <- read_df ;; ret (Q5 df genres_to_compare).

Definition tab_Q6 : M (list (Stats (option string))) :=
  df <- read_df ;; ret (Q6 df).

(** Q7, lines 207-211, once [df_ec] is loaded: the raw preview, the
    in-place fill of the genre column, the exploded preview. *)
Definition tab_Q7 : M (DataFrame * list (nat * Row)) :=
  df_ec <- read_df_ec ;;
  let raw_preview := head 5 df_ec in
  store_genres_ec (map (fun r => fillna no_genres_listed (genres r)) df_ec) ;;;
  df_ec <- read_df_ec ;;
  ret (raw_preview, head 5 (Q7_cleaned df_ec)).
End Tabs.

Section Main.
Variable Content : Type.
Variable read_csv : Content -> option DataFrame.

(** The Q7 tab of [main], lines 205-213: the frame comes from the EC
    loader; an error of the loader ends the tab. *)
Definition run_Q7 (file_ : Path) (fs : FileSystem Content) (df : DataFrame)
    : Error + (DataFrame * list (nat * Row)) * Heap :=
  match load_movie_ratings_ec read_csv file_ fs with
  | inl e => inl e
  | inr df_ec => inr (tab_Q7 (mkHeap df df_ec))
  end.
End Main.

(** ** Widget bounds and defaults computed from the table *)

(** [Series.min()] and [Series.max()] of an integer column.  On an empty
    column pandas answers NaN, and the [int(...)] around it at line 127
    raises [ValueError]: [None] stands for that. *)
Definition series_min (l : list Z) : option Z :=
  match l with
  | [] => None
  | x :: t => Some (fold_left Z.min t x)
  end.

Definition series_max (l : list Z) : option Z :=
  match l with
  | [] => None
  | x :: t => Some (fold_left Z.max t x)
  end.

(** Line 127: [min_year, max_year], the bounds and the default value of the
    year-range slider of Q3. *)
Definition year_slider_bounds (df : DataFrame) : option (Z * Z) :=
  match series_min (map year df), series_max (map year df) with
  | Some min_year, Some max_year => Some (min_year, max_year)
  | _, _ => None
  end.

(** [Series.unique()]: the distinct values in the order of their first
    appearance; NaN is one value. *)
Fixpoint unique {A} (eq_dec : forall x y : A, {x = y} + {x <> y}) (l : list A)
    : list A :=
  match l with
  | [] => []
  | x :: t => x :: filter (fun y => if eq_dec y x then false else true)
                          (unique eq_dec t)
  end.

(** Line 176: the options of the genre multiselect of Q5 and its default,
    [df["genres"].unique()[:4]]. *)
Definition genre_options (df : DataFrame) : list (option string) :=
  unique genre_eq_dec (map genres df).

Definition default_genres (df : DataFrame) : list (option string) :=
  firstn 4 (genre_options df).

(** ** The two guarded loads of [main] *)

(** What a guarded block of [main] comes to: an exception that leaves
    [main], an error banner ([st.error]), or a value. *)
Inductive Outcome (A : Type) : Type :=
| Raises (e : Error)
| Shows (msg : string)
| Gives (a : A).

Arguments Raises {A} e.
Arguments Shows {A} msg.
Arguments Gives {A} a.

Section MainLoads.
Variable Content : Type.
Variable read_csv : Content -> option DataFrame.

(** Lines 42-49: only [FileNotFoundError] is caught. *)
Definition main_load (file_ : Path) (fs : FileSystem Content)
    : Outcome DataFrame :=
  match load_movie_ratings read_csv file_ fs with
  | inr df => Gives df
  | inl FileNotFoundError =>
      Shows ("Could not find data file at ../data/movie_ratings.csv. "
             ++ "Verify the project layout matches the course repo.")%string
  | inl e => Raises e
  end.

(** Lines 205-213, the Q7 tab with its guard. *)
Definition main_Q7 (file_ : Path) (fs : FileSystem Content) (df : DataFrame)
    : Outcome ((DataFrame * list (nat * Row)) * Heap) :=
  match load_movie_ratings_ec read_csv file_ fs with
  | inr df_ec => Gives (tab_Q7 (mkHeap df df_ec))
  | inl FileNotFoundError =>
      Shows "Could not find extra credit dataset movie_ratings_EC.csv"%string
  | inl e => Raises e
  end.
End MainLoads.

(** ** Vocabulary of the statements *)

(** The number of rows of [df] under a genre, and its share in percent. *)
Definition count_of (df : DataFrame) (label : option string) : Z :=
  Z.of_nat (length (rows_of genre_eq_dec genres label df)).

Definition share_of (df : DataFrame) (label : option string) : Q :=
  (100 * inject_Z (count_of df label)
   / inject_Z (Z.max (Z.of_nat (length df)) 1))%Q.

(** The number of ratings of a release year, and their mean. *)
Definition count_year (df : DataFrame) (y : Z) : Z :=
  Z.of_nat (length (rows_of Z.eq_dec year y df)).

Definition mean_year (df : DataFrame) (y : Z) : Q :=
  Qmean (map rating (rows_of Z.eq_dec year y df)).

(** The movies of the table, and the number of ratings of a movie. *)
Definition movie_key (r : Row) : Z * string := (movie_id r, title r).

Definition count_movie (df : DataFrame) (k : Z * string) : Z :=
  Z.of_nat (length (rows_of Zstr_eq_dec movie_key k df)).

Definition movies_passing (df : DataFrame) (m : Z) : list (Z * string) :=
  filter (fun k => (m <=? count_movie df k)%Z)
         (nodup Zstr_eq_dec (map movie_key df)).

(** The rows of a table that tie with a given mean rating, and those that
    tie with a given mean rating and count. *)
Definition same_mean {K} (v : Q) (s : Stats K) : bool :=
  Qeq_bool (mean_rating s) v.

Definition same_mean_count {K} (v : Q) (c : Z) (s : Stats K) : bool :=
  (Qeq_bool (mean_rating s) v && (n_ratings s =? c)%Z)%bool.

(** The rows with a mean rating below, and above, a given one. *)
Definition below_mean {K} (v : Q) (s : Stats K) : bool :=
  Qlt_bool (mean_rating s) v.

Definition above_mean {K} (v : Q) (s : Stats K) : bool :=
  Qlt_bool v (mean_rating s).

(** Whether the character occurs in the text. *)
Fixpoint has_char (c : ascii) (s : string) : bool :=
  match s with
  | EmptyString => false
  | String d t => (Ascii.eqb d c || has_char c t)%bool
  end.

(** The rows that [explode] derives from the row [r] at index [i]. *)
Definition exploded_row (i : nat) (r : Row) : list (nat * Row) :=
  match str_split pipe (genres r) with
  | Some (t :: ts) => map (fun tok => (i, set_genres (Some tok) r)) (t :: ts)
  | _ => [(i, set_genres None r)]
  end.

(** Two rows agree outside the genre column. *)
Definition same_other_fields (r r' : Row) : Prop :=
  user_id r' = user_id r /\ movie_id r' = movie_id r /\ title r' = title r
  /\ rating r' = rating r /\ year r' = year r /\ age r' = age r.

(** The ratings of an age under a genre label. *)
Definition rows_age_genre (df : DataFrame) (a : Z) (label : string) : DataFrame :=
  filter (fun r => if age_genre_eq_dec (age r, genres r) (a, Some label)
                   then true else false) df.

(** The path that both loaders read. *)
Definition data_path (file_ : Path) : option Path :=
  option_map (fun dir => dir ++ ["data"%string; "movie_ratings.csv"%string])
             (parents file_ 2).

(** The number of occurrences of a character in a text. *)
Fixpoint count_char (c : ascii) (s : string) : nat :=
  match s with
  | EmptyString => 0
  | String d t => (if Ascii.eqb d c then 1 else 0) + count_char c t
  end.

(** The genre of a row once the nulls are filled. *)
Definition filled_genre (r : Row) : string :=
  match genres r with
  | Some g => g
  | None => no_genres_listed
  end.

(** A value lies between two bounds. *)
Definition within (lo hi x : Q) : Prop := (lo <= x)%Q /\ (x <= hi)%Q.

(** The genre texts of a list of exploded rows. *)
Definition genre_texts (rows : list (nat * Row)) : list string :=
  flat_map (fun x => match genres (snd x) with
                     | Some g => [g]
                     | None => []
                     end) rows.

(** ** Sample tables *)

(** Two genres that tie on the mean rating. *)
Definition tied_genres : DataFrame :=
  [ mkRow 1 10 "Airplane" (Some "Comedy"%string) 3 1980 25;
    mkRow 2 20 "Alien" (Some "Horror"%string) 3 1979 31 ].

(** Four genres in two tied pairs: Action and Comedy at 3, Drama and
    Horror at 4. *)
Definition tied_pairs : DataFrame :=
  [ mkRow 1 10 "Die Hard" (Some "Action"%string) 3 1988 25;
    mkRow 2 20 "Airplane" (Some "Comedy"%string) 3 1980 31;
    mkRow 3 30 "Amadeus" (Some "Drama"%string) 4 1984 40;
    mkRow 4 40 "Alien" (Some "Horror"%string) 4 1979 52 ].

(** A table without ties, the example of the specification. *)
Definition comedy_drama : DataFrame :=
  [ mkRow 1 10 "Airplane" (Some "Comedy"%string) 4 1980 25;
    mkRow 2 10 "Airplane" (Some "Comedy"%string) 5 1980 31;
    mkRow 3 30 "Amadeus" (Some "Drama"%string) 3 1984 40 ].

(** A row with a composite genre. *)
Definition action_comedy : Row :=
  mkRow 7 42 "Kung Fu Hustle" (Some "Action|Comedy"%string) 4 2004 29.

(** A table with a null genre. *)
Definition null_genre : DataFrame := [set_genres None action_comedy].

(** A file system that holds one file, the data file, with one table. *)
Definition data_only (p : Path) : option DataFrame :=
  if list_eq_dec string_dec p ["repo"; "week"; "data"; "movie_ratings.csv"]%string
  then Some comedy_drama else None.

(** * Properties *)

(** ** Lists, sums and positional selection *)

Lemma Zsum_app (l1 l2 : list Z) : Zsum (l1 ++ l2) = (Zsum l1 + Zsum l2)%Z.
Proof. induction l1 as [|x l1 IH]; simpl; [reflexivity | rewrite IH; lia]. Qed.

Lemma Zsum_map_add {A} (f g : A -> Z) (l : list A) :
  Zsum (map (fun x => (f x + g x)%Z) l) = (Zsum (map f l) + Zsum (map g l))%Z.
Proof. induction l as [|x l IH]; simpl; [reflexivity | rewrite IH; lia]. Qed.

Lemma Zsum_perm (l1 l2 : list Z) : Permutation l1 l2 -> Zsum l1 = Zsum l2.
Proof. induction 1; simpl; lia. Qed.

Lemma Qsum_app (l1 l2 : list Q) : (Qsum (l1 ++ l2) == Qsum l1 + Qsum l2)%Q.
Proof.
  induction l1 as [|x l1 IH]; simpl.
  - now rewrite Qplus_0_l.
  - rewrite IH. now rewrite Qplus_assoc.
Qed.

Lemma iloc_app {A} (a b : list nat) (l : list A) :
  iloc (a ++ b) l = iloc a l ++ iloc b l.
Proof. unfold iloc. apply flat_map_app. Qed.

Lemma iloc_rev {A} (a : list nat) (l : list A) :
  iloc (rev a) l = rev (iloc a l).
Proof.
  induction a as [|i a IH]; simpl; [reflexivity|].
  rewrite iloc_app, IH, rev_app_distr. simpl.
  destruct (nth_error l i); simpl; [reflexivity | now rewrite app_nil_r].
Qed.

Lemma iloc_map {A B} (f : A -> B) (a : list nat) (l : list A) :
  map f (iloc a l) = iloc a (map f l).
Proof.
  induction a as [|i a IH]; simpl; [reflexivity|].
  rewrite map_app, IH, nth_error_map.
  destruct (nth_error l i); reflexivity.
Qed.

Lemma iloc_seq_shift {A} (l1 l2 : list A) :
  iloc (seq (length l1) (length l2)) (l1 ++ l2) = l2.
Proof.
  revert l1; induction l2 as [|x l2 IH]; intros l1; simpl; [reflexivity|].
  rewrite nth_error_app2 by lia. rewrite Nat.sub_diag. simpl.
  f_equal.
  specialize (IH (l1 ++ [x])).
  rewrite <- app_assoc, length_app in IH. simpl in IH.
  rewrite Nat.add_1_r in IH. exact IH.
Qed.

Lemma iloc_seq_all {A} (l : list A) : iloc (seq 0 (length l)) l = l.
Proof. exact (iloc_seq_shift [] l). Qed.

Lemma iloc_perm {A} (a b : list nat) (l : list A) :
  Permutation a b -> Permutation (iloc a l) (iloc b l).
Proof. intros H. unfold iloc. now apply Permutation_flat_map. Qed.

Lemma nth_error_iloc {A} (b : list nat) (l : list A) :
  Forall (fun j => (j < length l)%nat) b ->
  forall i, nth_error (iloc b l) i =
            match nth_error b i with
            | Some j => nth_error l j
            | None => None
            end.
Proof.
  induction 1 as [|j b Hj Hb IH]; intros i.
  - destruct i; reflexivity.
  - simpl. destruct (nth_error l j) as [x|] eqn:E.
    + destruct i; simpl; [now rewrite E | apply IH].
    + apply nth_error_None in E. lia.
Qed.

Lemma iloc_iloc {A} (a b : list nat) (l : list A) :
  Forall (fun j => (j < length l)%nat) b ->
  iloc (iloc a b) l = iloc a (iloc b l).
Proof.
  intros Hb. induction a as [|i a IH]; simpl; [reflexivity|].
  rewrite iloc_app, IH. f_equal.
  rewrite nth_error_iloc by exact Hb.
  destruct (nth_error b i) as [j|]; simpl; [now rewrite app_nil_r | reflexivity].
Qed.

Lemma seq_in_range (n : nat) : Forall (fun j => (j < n)%nat) (seq 0 n).
Proof. apply Forall_forall. intros j Hj. apply in_seq in Hj. lia. Qed.

(** ** Insertion sort *)

Section InsertBy.
Variable A : Type.
Variable c : A -> A -> bool.

Lemma insert_by_perm (x : A) (l : list A) :
  Permutation (insert_by c x l) (x :: l).
Proof.
  induction l as [|y l IH]; simpl; [reflexivity|].
  destruct (c x y); [reflexivity|].
  rewrite IH. apply perm_swap.
Qed.

Lemma stable_sort_perm (l : list A) : Permutation (stable_sort c l) l.
Proof.
  induction l as [|x l IH]; simpl; [reflexivity|].
  unfold stable_sort in *. simpl. rewrite insert_by_perm. now constructor.
Qed.

(** Sortedness for any relation that the comparison decides in both
    directions; it covers the insertion before and after equal elements. *)
Variable R : A -> A -> Prop.
Hypothesis R_trans : forall x y z, R x y -> R y z -> R x z.
Hypothesis c_true : forall x y, c x y = true -> R x y.
Hypothesis c_false : forall x y, c x y = false -> R y x.

Lemma insert_by_sorted (x : A) (l : list A) :
  StronglySorted R l -> StronglySorted R (insert_by c x l).
Proof.
  induction 1 as [|y l Hl IH Hy]; simpl.
  - repeat constructor.
  - destruct (c x y) eqn:E.
    + constructor; [now constructor|].
      constructor; [now apply c_true|].
      apply Forall_forall. intros z Hz.
      rewrite Forall_forall in Hy.
      apply R_trans with y; [now apply c_true | now apply Hy].
    + constructor; [exact IH|].
      apply Forall_forall. intros z Hz.
      apply (Permutation_in _ (insert_by_perm x l)) in Hz.
      destruct Hz as [<- | Hz]; [now apply c_false|].
      rewrite Forall_forall in Hy. now apply Hy.
Qed.

Lemma stable_sort_sorted (l : list A) : StronglySorted R (stable_sort c l).
Proof.
  induction l as [|x l IH]; [constructor|].
  unfold stable_sort in *. simpl. now apply insert_by_sorted.
Qed.
End InsertBy.

Lemma StronglySorted_app {A} (R : A -> A -> Prop) (l1 l2 : list A) :
  StronglySorted R l1 -> StronglySorted R l2 ->
  (forall a b, In a l1 -> In b l2 -> R a b) ->
  StronglySorted R (l1 ++ l2).
Proof.
  induction 1 as [|x l1 Hl IH Hx]; intros H2 H12; simpl; [exact H2|].
  constructor.
  - apply IH; [exact H2|]. intros a b Ha Hb. apply H12; [now right | exact Hb].
  - apply Forall_app. split; [exact Hx|].
    apply Forall_forall. intros b Hb. apply H12; [now left | exact Hb].
Qed.

Lemma StronglySorted_rev {A} (R : A -> A -> Prop) (l : list A) :
  StronglySorted R l -> StronglySorted (fun x y => R y x) (rev l).
Proof.
  induction 1 as [|x l Hl IH Hx]; simpl; [constructor|].
  apply StronglySorted_app; [exact IH | repeat constructor |].
  intros a b Ha [<- | []].
  rewrite Forall_forall in Hx. apply Hx. now apply in_rev.
Qed.

(** ** [sort_values] on one key *)

Section SortValues.
Context {AS : Argsort}.
Variables (A K : Type).
Variable by_ : A -> K.
Variable le : K -> K -> bool.

Lemma argsort_in_range (l : list K) :
  Forall (fun j => (j < length l)%nat) (argsort le l).
Proof.
  apply Forall_forall. intros j Hj.
  apply (Permutation_in _ (argsort_perm le l)) in Hj.
  apply in_seq in Hj. lia.
Qed.

Lemma sort_values_asc (frame : list A) :
  sort_values by_ le true frame = iloc (argsort le (map by_ frame)) frame.
Proof.
  unfold sort_values, nargsort.
  rewrite iloc_iloc; rewrite length_map.
  - now rewrite iloc_seq_all.
  - apply seq_in_range.
Qed.

Lemma sort_values_desc (frame : list A) :
  sort_values by_ le false frame =
  rev (iloc (argsort le (rev (map by_ frame))) (rev frame)).
Proof.
  unfold sort_values, nargsort.
  rewrite iloc_rev. f_equal.
  rewrite iloc_iloc; rewrite length_map.
  - now rewrite iloc_rev, iloc_seq_all.
  - apply Forall_forall. intros j Hj. apply in_rev, in_seq in Hj. lia.
Qed.

Lemma sort_values_perm (ascending : bool) (frame : list A) :
  Permutation (sort_values by_ le ascending frame) frame.
Proof.
  destruct ascending.
  - rewrite sort_values_asc.
    rewrite (iloc_perm frame (argsort_perm le (map by_ frame))).
    rewrite length_map. now rewrite iloc_seq_all.
  - rewrite sort_values_desc.
    rewrite <- Permutation_rev.
    rewrite (iloc_perm (rev frame) (argsort_perm le (rev (map by_ frame)))).
    rewrite length_rev, length_map, <- (length_rev frame), iloc_seq_all.
    symmetry. apply Permutation_rev.
Qed.

Hypothesis le_total : forall x y, le x y = true \/ le y x = true.
Hypothesis le_trans : forall x y z, le x y = true -> le y z = true -> le x z = true.

Lemma sort_values_sorted_asc (frame : list A) :
  StronglySorted (fun x y => le x y = true)
                 (map by_ (sort_values by_ le true frame)).
Proof.
  rewrite sort_values_asc, iloc_map.
  now apply argsort_sorted.
Qed.

Lemma sort_values_sorted_desc (frame : list A) :
  StronglySorted (fun x y => le y x = true)
                 (map by_ (sort_values by_ le false frame)).
Proof.
  rewrite sort_values_desc, map_rev, iloc_map, map_rev.
  apply StronglySorted_rev. now apply argsort_sorted.
Qed.
End SortValues.

(** ** Implementations of numpy's [argsort] contract *)

Lemma combine_seq_nth {A} (l : list A) (k : nat) :
  Forall (fun p => nth_error l (fst p - k) = Some (snd p) /\ (k <= fst p)%nat)
         (combine (seq k (length l)) l).
Proof.
  revert k. induction l as [|x l IH]; intros k; simpl; constructor.
  - simpl. rewrite Nat.sub_diag. split; [reflexivity | lia].
  - specialize (IH (S k)). rewrite Forall_forall in *.
    intros p Hp. destruct (IH p Hp) as [E Hk]. split; [|lia].
    replace (fst p - k)%nat with (S (fst p - S k)) by lia. exact E.
Qed.

Lemma iloc_fst_snd {A} (l : list A) (s : list (nat * A)) :
  Forall (fun p => nth_error l (fst p) = Some (snd p)) s ->
  iloc (map fst s) l = map snd s.
Proof.
  induction 1 as [|p s Hp Hs IH]; simpl; [reflexivity|].
  rewrite Hp. simpl. now f_equal.
Qed.

Section ArgsortWith.
Variable ins : forall K, (K -> K -> bool) -> K -> K -> bool.
Hypothesis ins_true : forall K (le : K -> K -> bool),
    (forall x y, le x y = true \/ le y x = true) ->
    forall x y, ins le x y = true -> le x y = true.
Hypothesis ins_false : forall K (le : K -> K -> bool),
    (forall x y, le x y = true \/ le y x = true) ->
    forall x y, ins le x y = false -> le y x = true.

Lemma argsort_with_perm K (le : K -> K -> bool) (l : list K) :
  Permutation (argsort_with ins le l) (seq 0 (length l)).
Proof.
  unfold argsort_with. rewrite stable_sort_perm.
  assert (H : forall k, map fst (combine (seq k (length l)) l) = seq k (length l)).
  { induction l as [|x l' IH]; intros k; simpl; [reflexivity | now rewrite IH]. }
  now rewrite H.
Qed.

Lemma argsort_with_sorted K (le : K -> K -> bool) (l : list K) :
  (forall x y, le x y = true \/ le y x = true) ->
  (forall x y z, le x y = true -> le y z = true -> le x z = true) ->
  StronglySorted (fun x y => le x y = true) (iloc (argsort_with ins le l) l).
Proof.
  intros Htot Htr. unfold argsort_with.
  set (s := stable_sort _ _).
  assert (Hs : Forall (fun p => nth_error l (fst p) = Some (snd p)) s).
  { apply Forall_forall. intros p Hp.
    apply (Permutation_in _ (stable_sort_perm _ _)) in Hp.
    pose proof (combine_seq_nth l 0) as H. rewrite Forall_forall in H.
    destruct (H p Hp) as [E _]. now rewrite Nat.sub_0_r in E. }
  rewrite iloc_fst_snd by exact Hs.
  assert (Hsorted : StronglySorted (fun a b : nat * K => le (snd a) (snd b) = true) s).
  { apply stable_sort_sorted.
    - intros x y z; apply Htr.
    - intros x y; apply ins_true, Htot.
    - intros x y; apply ins_false, Htot. }
  clear Hs. induction Hsorted as [|p r Hr IH Hp]; simpl; constructor.
  - exact IH.
  - apply Forall_forall. intros k Hk. apply in_map_iff in Hk.
    destruct Hk as [q [<- Hq]]. rewrite Forall_forall in Hp. now apply Hp.
Qed.
End ArgsortWith.

Lemma ins_le_true K (le : K -> K -> bool) :
  (forall x y, le x y = true \/ le y x = true) ->
  forall x y, ins_le le x y = true -> le x y = true.
Proof. intros _ x y H. exact H. Qed.

Lemma ins_le_false K (le : K -> K -> bool) :
  (forall x y, le x y = true \/ le y x = true) ->
  forall x y, ins_le le x y = false -> le y x = true.
Proof. unfold ins_le. intros Htot x y H. destruct (Htot x y); congruence. Qed.

(** A stable [argsort], as [kind="stable"] would give. *)
Definition stable_argsort : Argsort :=
  Build_Argsort (argsort_with ins_le)
    (argsort_with_perm ins_le)
    (argsort_with_sorted ins_le ins_le_true ins_le_false).

Lemma ordered_Sorted {K} (le : K -> K -> bool) (l : list K) :
  ordered le l = true -> Sorted (fun x y => le x y = true) l.
Proof.
  induction l as [|x [|y t] IH]; simpl; intros H.
  - constructor.
  - repeat constructor.
  - apply andb_true_iff in H. destruct H as [Hxy Ht].
    constructor; [now apply IH | now constructor].
Qed.

Lemma sorts_perm {K} (le : K -> K -> bool) (arr : list K) (r : list nat) :
  sorts le arr r = true -> Permutation r (seq 0 (length arr)).
Proof.
  unfold sorts. intros H. apply andb_true_iff in H. destruct H as [H _].
  destruct (list_eq_dec Nat.eq_dec (stable_sort Nat.leb r) (seq 0 (length arr)))
    as [E|]; [|discriminate].
  rewrite <- E. symmetry. apply stable_sort_perm.
Qed.

Lemma sorts_sorted {K} (le : K -> K -> bool) (arr : list K) (r : list nat) :
  (forall x y z, le x y = true -> le y z = true -> le x z = true) ->
  sorts le arr r = true ->
  StronglySorted (fun x y => le x y = true) (iloc r arr).
Proof.
  unfold sorts. intros Htr H. apply andb_true_iff in H. destruct H as [_ H].
  apply Sorted_StronglySorted; [exact Htr | now apply ordered_Sorted].
Qed.

Lemma avx512_argsort_perm K (le : K -> K -> bool) (arr : list K) :
  Permutation (avx512_argsort_fn le arr) (seq 0 (length arr)).
Proof.
  unfold avx512_argsort_fn.
  destruct (length arr <=? 1)%nat; [reflexivity|].
  destruct (length arr <=? 8)%nat; [|apply argsort_with_perm].
  destruct (sorts le arr (argsort_8_64bit le arr)) eqn:E;
    [now apply sorts_perm with le | apply argsort_with_perm].
Qed.

Lemma avx512_argsort_sorted K (le : K -> K -> bool) (arr : list K) :
  (forall x y, le x y = true \/ le y x = true) ->
  (forall x y z, le x y = true -> le y z = true -> le x z = true) ->
  StronglySorted (fun x y => le x y = true) (iloc (avx512_argsort_fn le arr) arr).
Proof.
  intros Htot Htr. unfold avx512_argsort_fn.
  assert (Hstable : StronglySorted (fun x y => le x y = true)
                      (iloc (argsort_with ins_le le arr) arr)).
  { now apply (argsort_with_sorted ins_le ins_le_true ins_le_false). }
  destruct (length arr <=? 1)%nat eqn:E1.
  - rewrite iloc_seq_all. apply Nat.leb_le in E1.
    destruct arr as [|x [|y t]]; simpl in E1; try lia; repeat constructor.
  - destruct (length arr <=? 8)%nat; [|exact Hstable].
    destruct (sorts le arr (argsort_8_64bit le arr)) eqn:E;
      [now apply sorts_sorted | exact Hstable].
Qed.

(** numpy's default [argsort] as an AVX-512 build runs it, for up to eight
    keys. *)
Definition avx512_argsort : Argsort :=
  Build_Argsort avx512_argsort_fn avx512_argsort_perm avx512_argsort_sorted.

(** ** [groupby] *)

Section GroupByFacts.
Variables (A K : Type).
Variable eq_dec : forall x y : K, {x = y} + {x <> y}.
Variable le : K -> K -> bool.
Variable by_ : A -> K.

Lemma group_keys_perm (keys : list K) :
  Permutation (group_keys eq_dec le keys) (nodup eq_dec keys).
Proof. apply stable_sort_perm. Qed.

Lemma group_keys_NoDup (keys : list K) : NoDup (group_keys eq_dec le keys).
Proof.
  apply (Permutation_NoDup (Permutation_sym (group_keys_perm keys))).
  apply NoDup_nodup.
Qed.

Lemma group_keys_In (keys : list K) (k : K) :
  In k (group_keys eq_dec le keys) <-> In k keys.
Proof.
  split; intros H.
  - apply (nodup_In eq_dec). revert H. apply Permutation_in, group_keys_perm.
  - apply (nodup_In eq_dec) in H. revert H.
    apply Permutation_in. symmetry. apply group_keys_perm.
Qed.

Lemma groupby_keys (frame : list A) :
  map fst (groupby eq_dec le by_ frame) = group_keys eq_dec le (map by_ frame).
Proof. unfold groupby. rewrite map_map. simpl. apply map_id. Qed.

Lemma groupby_In (frame : list A) (g : K * list A) :
  In g (groupby eq_dec le by_ frame) <->
  In (fst g) (map by_ frame) /\ snd g = rows_of eq_dec by_ (fst g) frame.
Proof.
  unfold groupby. rewrite in_map_iff. split.
  - intros [k [<- Hk]]. simpl. split; [now apply group_keys_In | reflexivity].
  - intros [Hk Hr]. exists (fst g). split.
    + destruct g as [k rows]. simpl in *. now rewrite Hr.
    + now apply group_keys_In.
Qed.

Lemma rows_of_nonempty (frame : list A) (k : K) :
  In k (map by_ frame) -> rows_of eq_dec by_ k frame <> [].
Proof.
  intros Hk. apply in_map_iff in Hk. destruct Hk as [r [E Hr]].
  assert (H : In r (rows_of eq_dec by_ k frame)).
  { apply filter_In. split; [exact Hr|]. destruct (eq_dec (by_ r) k); congruence. }
  intros E0. rewrite E0 in H. destruct H.
Qed.

Lemma indicator_sum (x : K) (ks : list K) :
  NoDup ks -> In x ks ->
  Zsum (map (fun k => if eq_dec x k then 1%Z else 0%Z) ks) = 1%Z.
Proof.
  induction 1 as [|k ks Hk Hnd IH]; intros Hx; [destruct Hx|].
  simpl. destruct (eq_dec x k) as [->|Hne].
  - assert (H0 : Zsum (map (fun k0 => if eq_dec k k0 then 1%Z else 0%Z) ks) = 0%Z).
    { clear IH Hnd Hx. induction ks as [|k' ks IH]; [reflexivity|].
      simpl. destruct (eq_dec k k') as [->|_].
      - exfalso. apply Hk. now left.
      - rewrite IH; [reflexivity|]. intros H. apply Hk. now right. }
    rewrite H0. reflexivity.
  - destruct Hx as [->|Hx]; [congruence|]. now rewrite IH.
Qed.

(** The group sizes add up to the size of the frame. *)
Lemma group_sizes_sum (ks : list K) (frame : list A) :
  NoDup ks -> (forall r, In r frame -> In (by_ r) ks) ->
  Zsum (map (fun k => Z.of_nat (length (rows_of eq_dec by_ k frame))) ks)
  = Z.of_nat (length frame).
Proof.
  intros Hnd. induction frame as [|r frame IH]; intros Hin.
  - clear Hnd Hin. induction ks as [|k ks IHk]; [reflexivity|].
    simpl. exact IHk.
  - rewrite (map_ext _ (fun k => ((if eq_dec (by_ r) k then 1 else 0)
                                  + Z.of_nat (length (rows_of eq_dec by_ k frame)))%Z)).
    2:{ intros k. unfold rows_of. simpl filter.
        destruct (eq_dec (by_ r) k); simpl length; lia. }
    rewrite Zsum_map_add, indicator_sum, IH.
    + simpl length. lia.
    + intros r' Hr'. apply Hin. now right.
    + exact Hnd.
    + apply Hin. now left.
Qed.

Lemma groupby_sizes_sum (frame : list A) :
  Zsum (map (fun g => Z.of_nat (length (snd g))) (groupby eq_dec le by_ frame))
  = Z.of_nat (length frame).
Proof.
  unfold groupby. rewrite map_map. simpl.
  apply group_sizes_sum.
  - apply group_keys_NoDup.
  - intros r Hr. apply group_keys_In. now apply in_map.
Qed.
End GroupByFacts.

(** ** Q1: genre composition *)

Lemma filter_all {A} (f : A -> bool) (l : list A) :
  (forall x, In x l -> f x = true) -> filter f l = l.
Proof.
  induction l as [|x l IH]; intros H; simpl; [reflexivity|].
  rewrite (H x (or_introl eq_refl)). f_equal. apply IH.
  intros y Hy. apply H. now right.
Qed.

Lemma filter_none {A} (f : A -> bool) (l : list A) :
  (forall x, In x l -> f x = false) -> filter f l = [].
Proof.
  induction l as [|x l IH]; intros H; simpl; [reflexivity|].
  rewrite (H x (or_introl eq_refl)). apply IH.
  intros y Hy. apply H. now right.
Qed.

Lemma filter_split_perm {A} (f : A -> bool) (l : list A) :
  Permutation l (filter f l ++ filter (fun x => negb (f x)) l).
Proof.
  induction l as [|x l IH]; simpl; [reflexivity|].
  destruct (f x); simpl.
  - now constructor.
  - now apply Permutation_cons_app.
Qed.

Lemma Qsum_filter_split {A} (f : A -> bool) (v : A -> Q) (l : list A) :
  (Qsum (map v l) ==
   Qsum (map v (filter f l)) + Qsum (map v (filter (fun x => negb (f x)) l)))%Q.
Proof.
  induction l as [|x l IH]; simpl; [reflexivity|].
  destruct (f x); simpl; rewrite IH; ring.
Qed.

Lemma Qsum_scaled (d : Q) (l : list Z) :
  (Qsum (map (fun c => 100 * inject_Z c / d) l) == 100 * inject_Z (Zsum l) / d)%Q.
Proof.
  induction l as [|c l IH]; simpl.
  - unfold Qdiv. ring.
  - rewrite IH, inject_Z_plus. unfold Qdiv. ring.
Qed.

Section Q1Facts.
Context {AS : Argsort}.

Lemma genre_sizes_perm (df : DataFrame) :
  Permutation (genre_sizes df)
    (map (fun label => (label, count_of df label))
         (group_keys genre_eq_dec genre_leb (map genres df))).
Proof.
  unfold genre_sizes. rewrite sort_values_perm.
  unfold groupby. rewrite map_map. reflexivity.
Qed.

Lemma genre_sizes_total (df : DataFrame) :
  Zsum (map snd (genre_sizes df)) = Z.of_nat (length df).
Proof.
  unfold genre_sizes.
  rewrite (Zsum_perm (Permutation_map snd (sort_values_perm _ _ _ _))).
  rewrite map_map. simpl. apply groupby_sizes_sum.
Qed.

Lemma pct_divisor_length (df : DataFrame) :
  pct_divisor df = Z.max (Z.of_nat (length df)) 1.
Proof. unfold pct_divisor. now rewrite genre_sizes_total. Qed.

Lemma genre_counts_perm (df : DataFrame) :
  Permutation (genre_counts df)
    (map (fun label => mkGenreCount label (count_of df label) (share_of df label))
         (nodup genre_eq_dec (map genres df))).
Proof.
  unfold genre_counts. rewrite genre_sizes_perm, map_map. simpl.
  rewrite group_keys_perm. unfold share_of. now rewrite pct_divisor_length.
Qed.

Lemma gc_pct_nonneg (df : DataFrame) (g : GenreCount) :
  In g (genre_counts df) -> (0 <= gc_pct g)%Q.
Proof.
  intros Hg. apply (Permutation_in _ (genre_counts_perm df)) in Hg.
  apply in_map_iff in Hg. destruct Hg as [label [<- _]]. simpl.
  unfold share_of, Qdiv. apply Qmult_le_0_compat.
  - apply Qmult_le_0_compat; [discriminate|].
    unfold count_of. rewrite <- (Zle_Qle 0). lia.
  - apply Qinv_le_0_compat. rewrite <- (Zle_Qle 0). lia.
Qed.

Lemma Q1_unfold (df : DataFrame) (min_pct : Q) :
  Q1 df min_pct =
  major df min_pct ++ match minor df min_pct with
                      | [] => []
                      | _ :: _ => [other_row df min_pct]
                      end.
Proof. unfold Q1. destruct (minor df min_pct); [now rewrite app_nil_r | reflexivity]. Qed.

(** C1.  Q1 has one row per distinct genre of the table, with its row
    count and its share in percent.  The genres are split in those
    whose share is at least [min_pct] and those whose share is below
    it.  The first appear as they are in the output; the second, when
    there are any, are replaced by one row labelled "Other" that carries
    the sum of their counts and the sum of their shares, put after the
    major genres.  When no genre is below the threshold, and so
    whenever [min_pct <= 0], the output is the full list of genres and
    no row is added. *)
Theorem Q1_genre_composition (df : DataFrame) (min_pct : Q) :
  Permutation (genre_counts df)
    (map (fun label => mkGenreCount label (count_of df label) (share_of df label))
         (nodup genre_eq_dec (map genres df)))
  /\ Permutation (genre_counts df) (major df min_pct ++ minor df min_pct)
  /\ Forall (fun g => (min_pct <= gc_pct g)%Q) (major df min_pct)
  /\ Forall (fun g => (gc_pct g < min_pct)%Q) (minor df min_pct)
  /\ Q1 df min_pct =
     major df min_pct ++
     match minor df min_pct with
     | [] => []
     | _ :: _ => [mkGenreCount (Some "Other"%string)
                    (Zsum (map gc_count (minor df min_pct)))
                    (Qsum (map gc_pct (minor df min_pct)))]
     end
  /\ ((forall g, In g (genre_counts df) -> (min_pct <= gc_pct g)%Q) ->
      Q1 df min_pct = genre_counts df)
  /\ ((min_pct <= 0)%Q -> Q1 df min_pct = genre_counts df).
Proof.
  assert (Hall : (forall g, In g (genre_counts df) -> (min_pct <= gc_pct g)%Q) ->
                 Q1 df min_pct = genre_counts df).
  { intros H. rewrite Q1_unfold. unfold major, minor.
    rewrite filter_all, filter_none; [apply app_nil_r | |].
    - intros g Hg. unfold Qlt_bool. apply negb_false_iff, Qle_bool_iff. now apply H.
    - intros g Hg. apply Qle_bool_iff. now apply H. }
  split; [apply genre_counts_perm|].
  split; [apply filter_split_perm|].
  split.
  { apply Forall_forall. intros g Hg. apply filter_In in Hg.
    now apply Qle_bool_iff. }
  split.
  { apply Forall_forall. intros g Hg. apply filter_In in Hg.
    destruct Hg as [_ Hg]. unfold Qlt_bool in Hg. apply negb_true_iff in Hg.
    apply Qnot_le_lt. intros H. apply Qle_bool_iff in H. congruence. }
  split; [apply Q1_unfold|].
  split; [exact Hall|].
  intros Hp. apply Hall. intros g Hg.
  apply Qle_trans with 0%Q; [exact Hp | now apply gc_pct_nonneg with df].
Qed.

(** C6.  The divisor of the percentage is [max(total, 1)]: it is at
    least 1, and it is 1 for the empty table.  For a non-empty table
    the percentages of the output rows, the "Other" row included, add
    up to 100. *)
Theorem Q1_percentages (df : DataFrame) (min_pct : Q) :
  (1 <= pct_divisor df)%Z
  /\ (df = [] -> pct_divisor df = 1%Z)
  /\ (forall g, In g (genre_counts df) ->
        gc_pct g = (100 * inject_Z (gc_count g) / inject_Z (pct_divisor df))%Q)
  /\ (df <> [] -> (Qsum (map gc_pct (Q1 df min_pct)) == 100)%Q).
Proof.
  split; [unfold pct_divisor; lia|].
  split; [intros ->; now rewrite pct_divisor_length|].
  split.
  { intros g Hg. unfold genre_counts in Hg. apply in_map_iff in Hg.
    destruct Hg as [s [<- _]]. reflexivity. }
  intros Hne.
  assert (Hsum : (Qsum (map gc_pct (Q1 df min_pct))
                  == Qsum (map gc_pct (genre_counts df)))%Q).
  { rewrite Q1_unfold, map_app, Qsum_app.
    rewrite (Qsum_filter_split (fun g => Qle_bool min_pct (gc_pct g)) gc_pct
                               (genre_counts df)).
    fold (major df min_pct).
    change (filter (fun x => negb (Qle_bool min_pct (gc_pct x))) (genre_counts df))
      with (minor df min_pct).
    unfold other_row. destruct (minor df min_pct) as [|g l]; simpl; ring. }
  rewrite Hsum. unfold genre_counts. rewrite map_map. simpl.
  rewrite <- (map_map snd (fun c => (100 * inject_Z c / inject_Z (pct_divisor df))%Q)).
  rewrite Qsum_scaled, genre_sizes_total, pct_divisor_length.
  assert (Hlen : (1 <= Z.of_nat (length df))%Z).
  { destruct df; [congruence | simpl length; lia]. }
  rewrite Z.max_l by exact Hlen.
  field. intros H.
  unfold Qeq in H. simpl in H. lia.
Qed.
End Q1Facts.

(** ** Sorted permutations *)

Lemma StronglySorted_map {A B} (f : A -> B) (R : B -> B -> Prop) (l : list A) :
  StronglySorted R (map f l) <-> StronglySorted (fun a b => R (f a) (f b)) l.
Proof.
  induction l as [|x l IH]; simpl.
  - split; constructor.
  - split; intros H; inversion H as [|? ? Hl Hx]; subst; constructor.
    + now apply IH.
    + rewrite Forall_map in Hx. exact Hx.
    + now apply IH.
    + rewrite Forall_map. exact Hx.
Qed.

Lemma StronglySorted_weaken {A} (R S : A -> A -> Prop) (l : list A) :
  (forall a b, R a b -> S a b) -> StronglySorted R l -> StronglySorted S l.
Proof.
  intros H. induction 1 as [|x l Hl IH Hx]; constructor; [exact IH|].
  revert Hx. apply Forall_impl. intros b. apply H.
Qed.

(** A list has at most one sorted arrangement when the order does not tie
    on its elements. *)
Lemma sorted_perm_unique {A} (R : A -> A -> Prop) (l1 : list A) :
  (forall a b, In a l1 -> In b l1 -> R a b -> R b a -> a = b) ->
  forall l2, StronglySorted R l1 -> StronglySorted R l2 ->
             Permutation l1 l2 -> l1 = l2.
Proof.
  induction l1 as [|x t1 IH]; intros Hanti l2 H1 H2 Hp.
  - apply Permutation_nil in Hp. now subst.
  - destruct l2 as [|y t2].
    + symmetry in Hp. apply Permutation_nil in Hp. discriminate.
    + inversion H1 as [|? ? Ht1 Hx]; subst.
      inversion H2 as [|? ? Ht2 Hy]; subst.
      rewrite Forall_forall in Hx, Hy.
      assert (E : x = y).
      { assert (Hxin : In x (y :: t2)) by (apply (Permutation_in _ Hp); now left).
        assert (Hyin : In y (x :: t1))
          by (apply (Permutation_in _ (Permutation_sym Hp)); now left).
        destruct Hxin as [E|Hxin]; [now symmetry|].
        destruct Hyin as [E|Hyin]; [exact E|].
        apply Hanti; [now left | now right | now apply Hx | now apply Hy]. }
      subst y. f_equal.
      apply IH; try assumption.
      * intros a b Ha Hb. apply Hanti; now right.
      * now apply Permutation_cons_inv in Hp.
Qed.

Lemma Qle_bool_total (x y : Q) : Qle_bool x y = true \/ Qle_bool y x = true.
Proof.
  destruct (Qlt_le_dec x y) as [H|H].
  - left. apply Qle_bool_iff. now apply Qlt_le_weak.
  - right. now apply Qle_bool_iff.
Qed.

Lemma Qle_bool_trans (x y z : Q) :
  Qle_bool x y = true -> Qle_bool y z = true -> Qle_bool x z = true.
Proof. rewrite !Qle_bool_iff. apply Qle_trans. Qed.

Lemma Zleb_total (x y : Z) : (x <=? y)%Z = true \/ (y <=? x)%Z = true.
Proof. rewrite !Z.leb_le. lia. Qed.

Lemma Zleb_trans (x y z : Z) :
  (x <=? y)%Z = true -> (y <=? z)%Z = true -> (x <=? z)%Z = true.
Proof. rewrite !Z.leb_le. lia. Qed.

(** ** Aggregated groups *)

Lemma agg_groupby_In {K} (eq_dec : forall x y : K, {x = y} + {x <> y})
    (le : K -> K -> bool) (by_ : Row -> K) (df : DataFrame) (s : Stats K) :
  In s (agg (groupby eq_dec le by_ df)) <->
  In (key s) (map by_ df)
  /\ mean_rating s = Qmean (map rating (rows_of eq_dec by_ (key s) df))
  /\ n_ratings s = Z.of_nat (length (rows_of eq_dec by_ (key s) df)).
Proof.
  unfold agg. rewrite in_map_iff. split.
  - intros [g [<- Hg]]. apply groupby_In in Hg. destruct Hg as [Hk Hr].
    simpl. now rewrite Hr.
  - intros [Hk [Hm Hn]]. exists (key s, rows_of eq_dec by_ (key s) df). split.
    + destruct s as [k m n]. simpl in *. now subst.
    + apply groupby_In. now split.
Qed.

Lemma agg_groupby_keys {K} (eq_dec : forall x y : K, {x = y} + {x <> y})
    (le : K -> K -> bool) (by_ : Row -> K) (df : DataFrame) :
  map (@key K) (agg (groupby eq_dec le by_ df))
  = group_keys eq_dec le (map by_ df).
Proof. unfold agg. rewrite map_map. simpl. apply groupby_keys. Qed.

Lemma agg_groupby_NoDup {K} (eq_dec : forall x y : K, {x = y} + {x <> y})
    (le : K -> K -> bool) (by_ : Row -> K) (df : DataFrame) :
  NoDup (map (@key K) (agg (groupby eq_dec le by_ df))).
Proof. rewrite agg_groupby_keys. apply group_keys_NoDup. Qed.

(** Filtering a frame whose keys are distinct leaves the keys distinct. *)
Lemma filter_keeps_keys_distinct {K V} (by_ : V -> K) (keep : V -> bool)
    (rows : list V) (Hnd : NoDup (map by_ rows)) :
  NoDup (map by_ (filter keep rows)).
Proof.
  induction rows as [|s rows IH]; simpl in *; [constructor|].
  apply NoDup_cons_iff in Hnd. destruct Hnd as [Hs Hrows].
  destruct (keep s); simpl; [|now apply IH].
  apply NoDup_cons; [|now apply IH].
  rewrite in_map_iff. intros [s' [E Hin]].
  apply filter_In in Hin. apply Hs. rewrite <- E. apply in_map. tauto.
Qed.

(** ** Q2: genre satisfaction *)

Section Q2Facts.
Context {AS : Argsort}.

Lemma Q2_perm (df : DataFrame) (min_count : Z) (ascending : bool) :
  Permutation (Q2 df min_count ascending) (Q2_filtered df min_count).
Proof. apply sort_values_perm. Qed.

Lemma Q2_sorted_asc (df : DataFrame) (min_count : Z) :
  StronglySorted (fun a b => (mean_rating a <= mean_rating b)%Q)
                 (Q2 df min_count true).
Proof.
  apply StronglySorted_weaken
    with (R := fun a b => Qle_bool (mean_rating a) (mean_rating b) = true).
  - intros a b. apply Qle_bool_iff.
  - apply (StronglySorted_map (@mean_rating _) (fun x y => Qle_bool x y = true)).
    apply sort_values_sorted_asc; [apply Qle_bool_total | apply Qle_bool_trans].
Qed.

Lemma Q2_sorted_desc (df : DataFrame) (min_count : Z) :
  StronglySorted (fun a b => (mean_rating b <= mean_rating a)%Q)
                 (Q2 df min_count false).
Proof.
  apply StronglySorted_weaken
    with (R := fun a b => Qle_bool (mean_rating b) (mean_rating a) = true).
  - intros a b. apply Qle_bool_iff.
  - apply (StronglySorted_map (@mean_rating _) (fun x y => Qle_bool y x = true)).
    apply sort_values_sorted_desc; [apply Qle_bool_total | apply Qle_bool_trans].
Qed.

(** On two rows with equal keys, whatever [argsort] answers, the
    ascending and the descending sort give the same order. *)
Lemma sort_values_tie {A} (by_ : A -> Q) (a b : A) :
  by_ a = by_ b ->
  sort_values by_ Qle_bool false [a; b] = sort_values by_ Qle_bool true [a; b].
Proof.
  intros E. rewrite sort_values_asc, sort_values_desc. simpl. rewrite E.
  pose proof (argsort_perm Qle_bool [by_ b; by_ b]) as Hp. simpl in Hp.
  apply Permutation_sym, Permutation_length_2_inv in Hp.
  destruct Hp as [-> | ->]; reflexivity.
Qed.

(** C2, as amended.  Every row of Q2 has [n_ratings >= min_count]; the
    rows are the genres of the table whose count reaches [min_count],
    each once; they are in non-decreasing order of mean rating for an
    ascending sort and in non-increasing order for a descending one; and
    when no two of the kept genres have the same mean rating, the
    descending output is the reverse of the ascending output. *)
Theorem Q2_satisfaction (df : DataFrame) (min_count : Z) :
  (forall ascending,
      Forall (fun s => (min_count <= n_ratings s)%Z) (Q2 df min_count ascending))
  /\ (forall ascending s,
         In s (Q2 df min_count ascending) <->
         In s (genre_stats df) /\ (min_count <= n_ratings s)%Z)
  /\ (forall ascending, NoDup (map (@key _) (Q2 df min_count ascending)))
  /\ StronglySorted (fun a b => (mean_rating a <= mean_rating b)%Q)
                    (Q2 df min_count true)
  /\ StronglySorted (fun a b => (mean_rating b <= mean_rating a)%Q)
                    (Q2 df min_count false)
  /\ ((forall a b, In a (Q2_filtered df min_count) ->
                   In b (Q2_filtered df min_count) ->
                   (mean_rating a == mean_rating b)%Q -> a = b) ->
      Q2 df min_count false = rev (Q2 df min_count true)).
Proof.
  assert (Hin : forall ascending s,
             In s (Q2 df min_count ascending) <->
             In s (genre_stats df) /\ (min_count <= n_ratings s)%Z).
  { intros asc s. split.
    - intros H. apply (Permutation_in _ (Q2_perm df min_count asc)) in H.
      apply filter_In in H. now rewrite Z.leb_le in H.
    - intros H. apply (Permutation_in _ (Permutation_sym (Q2_perm df min_count asc))).
      apply filter_In. now rewrite Z.leb_le. }
  split.
  { intros asc. apply Forall_forall. intros s Hs. now apply Hin in Hs. }
  split; [exact Hin|].
  split.
  { intros asc.
    apply (Permutation_NoDup
             (Permutation_sym (Permutation_map _ (Q2_perm df min_count asc)))).
    apply filter_keeps_keys_distinct, agg_groupby_NoDup. }
  split; [apply Q2_sorted_asc|].
  split; [apply Q2_sorted_desc|].
  intros Hties.
  apply sorted_perm_unique
    with (R := fun a b => (mean_rating b <= mean_rating a)%Q).
  - intros a b Ha Hb Hab Hba.
    apply Hties.
    + now apply (Permutation_in _ (Q2_perm df min_count false)).
    + now apply (Permutation_in _ (Q2_perm df min_count false)).
    + now apply Qle_antisym.
  - apply Q2_sorted_desc.
  - apply (StronglySorted_rev (Q2_sorted_asc df min_count)).
  - rewrite <- Permutation_rev. now rewrite !Q2_perm.
Qed.

(** On the two tied genres the descending output is the ascending
    output, for every implementation of [argsort]. *)
Lemma Q2_tied_same_order :
  Q2 tied_genres 0 false = Q2 tied_genres 0 true.
Proof.
  unfold Q2.
  replace (Q2_filtered tied_genres 0)
    with [ mkStats (Some "Comedy"%string) (3 # 1) 1;
           mkStats (Some "Horror"%string) (3 # 1) 1 ] by reflexivity.
  now apply sort_values_tie.
Qed.
End Q2Facts.

(** C2, counterexample.  With two genres of equal mean rating no
    implementation of [argsort] makes the descending output the reverse of
    the ascending one. *)
Lemma Q2_reverse_counterexample :
  ~ (exists AS : Argsort,
        @Q2 AS tied_genres 0 false = rev (@Q2 AS tied_genres 0 true)).
Proof.
  intros [AS H]. rewrite Q2_tied_same_order in H.
  pose proof (@Q2_perm AS tied_genres 0 true) as Hp.
  replace (Q2_filtered tied_genres 0)
    with [ mkStats (Some "Comedy"%string) (3 # 1) 1;
           mkStats (Some "Horror"%string) (3 # 1) 1 ] in Hp by reflexivity.
  apply Permutation_sym, Permutation_length_2_inv in Hp.
  destruct Hp as [E | E]; rewrite E in H; discriminate H.
Qed.

(** The example of the specification has no tie: descending is the
    reverse of ascending. *)
Lemma Q2_satisfaction_witness :
  @Q2 stable_argsort comedy_drama 1 false
  = rev (@Q2 stable_argsort comedy_drama 1 true).
Proof.
  apply (@Q2_satisfaction stable_argsort comedy_drama 1).
  intros a b Ha Hb.
  vm_compute in Ha, Hb.
  destruct Ha as [<- | [<- | []]]; destruct Hb as [<- | [<- | []]];
    intros E; try reflexivity; vm_compute in E; discriminate E.
Defined.

(** ** Q3: yearly trend *)

Lemma slice_length {A} (start end_ : Z) (l : list A) :
  (0 <= start <= end_)%Z -> (end_ <= Z.of_nat (length l))%Z ->
  length (slice start end_ l) = Z.to_nat (end_ - start).
Proof.
  intros H1 H2. unfold slice. rewrite length_firstn, length_skipn. lia.
Qed.

Lemma slice_length_le {A} (start end_ : Z) (l : list A) :
  (length (slice start end_ l) <= Z.to_nat (end_ - start))%nat.
Proof. unfold slice. rewrite length_firstn. lia. Qed.

Lemma rolling_mean_length (window : Z) (values : list Q) :
  length (rolling_mean window values) = length values.
Proof. unfold rolling_mean. now rewrite length_map, length_seq. Qed.

Lemma nth_error_seq0 (n i : nat) : (i < n)%nat -> nth_error (seq 0 n) i = Some i.
Proof.
  intros H. rewrite (nth_error_nth' _ 0%nat) by now rewrite length_seq.
  now rewrite seq_nth.
Qed.

Section Rolling.
Variable window : Z.
Variable values : list Q.
Variable i : nat.
Hypothesis window_pos : (0 < window)%Z.
Hypothesis i_in : (i < length values)%nat.

Let end_ : Z := (Z.of_nat i + 1 + (window - 1) / 2)%Z.
Let start : Z := (end_ - window)%Z.

(** A position whose window lies inside the series gets the mean of the
    [window] values of the window. *)
Lemma rolling_mean_full :
  (0 <= start)%Z -> (end_ <= Z.of_nat (length values))%Z ->
  nth_error (rolling_mean window values) i
  = Some (Some (Qmean (slice start end_ values)))
  /\ Z.of_nat (length (slice start end_ values)) = window.
Proof.
  intros Hs He.
  assert (Hlen : Z.of_nat (length (slice start end_ values)) = window).
  { rewrite slice_length; subst start; lia. }
  split; [|exact Hlen].
  unfold rolling_mean. rewrite nth_error_map, nth_error_seq0 by exact i_in.
  simpl. unfold window_bounds, clip. fold end_. fold start.
  rewrite (Z.max_l start 0), (Z.max_l end_ 0) by (subst start; lia).
  rewrite !Z.min_l by lia.
  rewrite Hlen, Z.leb_refl. reflexivity.
Qed.

(** A position whose window sticks out of the series gets no value. *)
Lemma rolling_mean_edge :
  (start < 0)%Z \/ (Z.of_nat (length values) < end_)%Z ->
  nth_error (rolling_mean window values) i = Some None.
Proof.
  intros Hout.
  unfold rolling_mean. rewrite nth_error_map, nth_error_seq0 by exact i_in.
  simpl. unfold window_bounds. fold end_. fold start.
  set (obs := slice _ _ values).
  assert (Hlt : (Z.of_nat (length obs) < window)%Z).
  { pose proof (slice_length_le (clip start 0 (Z.of_nat (length values)))
                                (clip end_ 0 (Z.of_nat (length values))) values) as H.
    fold obs in H. unfold clip in H. subst start. lia. }
  apply Z.leb_gt in Hlt. now rewrite Hlt.
Qed.
End Rolling.

(** For an odd window [2 * h + 1] the window of a position reaches [h]
    positions to each side. *)
Lemma window_bounds_odd (h n i : Z) :
  (0 <= h)%Z ->
  window_bounds (2 * h + 1) n i = (clip (i - h) 0 n, clip (i + h + 1) 0 n).
Proof.
  intros Hh. unfold window_bounds.
  replace ((2 * h + 1 - 1) / 2)%Z with h
    by (rewrite Z.add_simpl_r, Z.mul_comm; symmetry; now apply Z.div_mul).
  f_equal; f_equal; lia.
Qed.

Lemma combine_map_fst {A B} (a : list A) (b : list B) :
  length a = length b -> map fst (combine a b) = a.
Proof.
  revert b. induction a as [|x a IH]; intros [|y b] H; simpl in *;
    try discriminate; [reflexivity|]. f_equal. apply IH. lia.
Qed.

Lemma combine_map_snd {A B} (a : list A) (b : list B) :
  length a = length b -> map snd (combine a b) = b.
Proof.
  revert b. induction a as [|x a IH]; intros [|y b] H; simpl in *;
    try discriminate; [reflexivity|]. f_equal. apply IH. lia.
Qed.

Lemma sorted_nodup_strict (l : list Z) :
  StronglySorted Z.le l -> NoDup l -> StronglySorted Z.lt l.
Proof.
  induction 1 as [|x l Hl IH Hx]; intros Hnd; constructor;
    inversion Hnd as [|? ? Hnin Hnd']; subst.
  - now apply IH.
  - rewrite Forall_forall in *. intros y Hy.
    specialize (Hx y Hy). assert (x <> y) by (intros ->; contradiction). lia.
Qed.

Section Q3Facts.
Context {AS : Argsort}.

Lemma year_filtered_In (df : DataFrame) (lo hi m : Z) (s : Stats Z) :
  In s (year_filtered df lo hi m) <->
  In s (year_stats df) /\ (lo <= key s <= hi)%Z /\ (m <= n_ratings s)%Z.
Proof.
  unfold year_filtered. split; intros H.
  - apply (Permutation_in _ (sort_values_perm _ _ _ _)) in H.
    apply filter_In in H. destruct H as [H1 H2].
    rewrite !andb_true_iff, !Z.leb_le in H2. tauto.
  - apply (Permutation_in _ (Permutation_sym (sort_values_perm _ _ _ _))).
    apply filter_In. rewrite !andb_true_iff, !Z.leb_le. tauto.
Qed.

Lemma year_filtered_sorted (df : DataFrame) (lo hi m : Z) :
  StronglySorted Z.lt (map (@key _) (year_filtered df lo hi m)).
Proof.
  apply sorted_nodup_strict.
  - apply StronglySorted_weaken with (R := fun x y => (x <=? y)%Z = true).
    + intros a b. apply Z.leb_le.
    + apply sort_values_sorted_asc; [apply Zleb_total | apply Zleb_trans].
  - unfold year_filtered.
    apply (Permutation_NoDup
             (Permutation_sym (Permutation_map _ (sort_values_perm _ _ _ _)))).
    apply filter_keeps_keys_distinct, agg_groupby_NoDup.
Qed.

Lemma smoothed_length (w : Z) (filtered : list (Stats Z)) :
  length (smoothed w filtered) = length filtered.
Proof.
  unfold smoothed. destruct (_ && _)%bool.
  - now rewrite rolling_mean_length, length_map.
  - now rewrite length_map.
Qed.

Lemma Q3_columns (df : DataFrame) (lo hi m w : Z) :
  map (fun r => mkStats (yr_year r) (yr_mean r) (yr_n r)) (Q3 df lo hi m w)
  = year_filtered df lo hi m
  /\ map yr_smoothed (Q3 df lo hi m w) = smoothed w (year_filtered df lo hi m).
Proof.
  unfold Q3. rewrite !map_map. simpl. split.
  - rewrite <- (map_map fst (fun s => mkStats (key s) (mean_rating s) (n_ratings s))).
    rewrite combine_map_fst by now rewrite smoothed_length.
    rewrite <- (map_id (year_filtered df lo hi m)) at 2.
    apply map_ext. now intros [k mr n].
  - change (fun x : Stats Z * option Q => snd x) with (@snd (Stats Z) (option Q)).
    apply combine_map_snd. now rewrite smoothed_length.
Qed.
End Q3Facts.

Section Q3Theorem.
Context {AS : Argsort}.

(** C3.  The rows of Q3 are the release years of the table that lie in
    [lo, hi] and have at least [min_count_year] ratings, each with its
    mean rating and count, in strictly increasing order of year.  The
    smoothed column has one entry per row.  With a window of 1 it is the
    mean-rating column.  With a window [w > 1], position [i] has the
    window [i + 1 + (w - 1) / 2 - w, i + 1 + (w - 1) / 2): when the
    window lies inside the series its [w] mean ratings are averaged, and
    otherwise the position has no smoothed value. *)
Theorem Q3_yearly_trend (df : DataFrame) (lo hi min_count_year w : Z) :
  let out := Q3 df lo hi min_count_year w in
  (forall y, In y (map yr_year out) <->
             In y (map year df) /\ (lo <= y <= hi)%Z
             /\ (min_count_year <= count_year df y)%Z)
  /\ (forall r, In r out ->
                yr_mean r = mean_year df (yr_year r)
                /\ yr_n r = count_year df (yr_year r))
  /\ StronglySorted Z.lt (map yr_year out)
  /\ length (map yr_smoothed out) = length (year_filtered df lo hi min_count_year)
  /\ length (map yr_smoothed out) = length (map yr_mean out)
  /\ (w = 1%Z -> map yr_smoothed out = map (fun r => Some (yr_mean r)) out)
  /\ ((1 < w)%Z -> forall i, (i < length out)%nat ->
       let end_ := (Z.of_nat i + 1 + (w - 1) / 2)%Z in
       let start := (end_ - w)%Z in
       ((0 <= start)%Z /\ (end_ <= Z.of_nat (length out))%Z ->
        nth_error (map yr_smoothed out) i
        = Some (Some (Qmean (slice start end_ (map yr_mean out))))
        /\ Z.of_nat (length (slice start end_ (map yr_mean out))) = w)
       /\ ((start < 0)%Z \/ (Z.of_nat (length out) < end_)%Z ->
           nth_error (map yr_smoothed out) i = Some None)).
Proof.
  intros out.
  destruct (Q3_columns df lo hi min_count_year w) as [Hcols Hsm].
  fold out in Hcols, Hsm.
  set (F := year_filtered df lo hi min_count_year) in *.
  assert (Hyear : map yr_year out = map (@key _) F).
  { rewrite <- Hcols, map_map. reflexivity. }
  assert (Hmean : map yr_mean out = map (@mean_rating _) F).
  { rewrite <- Hcols, map_map. reflexivity. }
  assert (Hlen : length out = length F).
  { rewrite <- Hcols. now rewrite length_map. }
  assert (Hrow : forall r, In r out ->
                           In (mkStats (yr_year r) (yr_mean r) (yr_n r)) F).
  { intros r Hr. rewrite <- Hcols.
    now apply (in_map (fun r => mkStats (yr_year r) (yr_mean r) (yr_n r))). }
  split.
  { intros y. rewrite Hyear, in_map_iff. split.
    - intros [s [<- Hs]]. apply year_filtered_In in Hs.
      destruct Hs as [Hs [Hr Hn]]. apply agg_groupby_In in Hs.
      destruct Hs as [Hk [_ En]]. unfold count_year. rewrite <- En. tauto.
    - intros [Hy [Hr Hn]].
      exists (mkStats y (mean_year df y) (count_year df y)). split; [reflexivity|].
      apply year_filtered_In. simpl. split; [|tauto].
      apply agg_groupby_In. simpl. tauto. }
  split.
  { intros r Hr. apply Hrow, year_filtered_In in Hr.
    destruct Hr as [Hs _]. apply agg_groupby_In in Hs. simpl in Hs.
    unfold mean_year, count_year. tauto. }
  split; [rewrite Hyear; apply year_filtered_sorted|].
  split; [now rewrite Hsm, smoothed_length|].
  split; [now rewrite Hsm, smoothed_length, length_map|].
  split.
  { intros ->. rewrite Hsm. unfold smoothed. simpl.
    rewrite <- (map_map yr_mean Some), Hmean, map_map. reflexivity. }
  intros Hw i Hi. simpl.
  assert (Hroll : map yr_smoothed out = rolling_mean w (map yr_mean out)).
  { rewrite Hsm, Hmean. unfold smoothed.
    apply Z.ltb_lt in Hw. rewrite Hw. simpl.
    destruct (length F) eqn:E; [lia | reflexivity]. }
  rewrite Hroll.
  assert (Hi' : (i < length (map yr_mean out))%nat) by now rewrite length_map.
  assert (Hl : length (map yr_mean out) = length out) by apply length_map.
  split.
  - intros [Hs He]. apply rolling_mean_full; try assumption; try lia.
  - intros Hout. apply rolling_mean_edge; try assumption; try lia.
Qed.
End Q3Theorem.

(** ** Q4: top movies *)

Lemma movie_le_iff (a b : Stats (Z * string)) :
  movie_le a b = true <->
  (mean_rating b < mean_rating a)%Q
  \/ ((mean_rating a == mean_rating b)%Q /\ (n_ratings b <= n_ratings a)%Z).
Proof.
  unfold movie_le. destruct (Qeq_bool (mean_rating a) (mean_rating b)) eqn:E.
  - apply Qeq_bool_iff in E. rewrite Z.leb_le. split.
    + intros H. right. now split.
    + intros [H | [_ H]]; [|exact H]. rewrite E in H. now apply Qlt_irrefl in H.
  - apply Qeq_bool_neq in E. rewrite Qle_bool_iff. split.
    + intros H. left. apply Qle_lt_or_eq in H. destruct H as [H | H]; [exact H|].
      exfalso. apply E. now symmetry.
    + intros [H | [H _]]; [now apply Qlt_le_weak | contradiction].
Qed.

Lemma movie_le_total (a b : Stats (Z * string)) :
  movie_le a b = false -> movie_le b a = true.
Proof.
  intros H. apply movie_le_iff.
  destruct (Q_dec (mean_rating a) (mean_rating b)) as [[Hlt | Hgt] | Heq].
  - now left.
  - exfalso. assert (movie_le a b = true) by (apply movie_le_iff; now left).
    congruence.
  - right. split; [now symmetry|].
    destruct (Z_le_gt_dec (n_ratings a) (n_ratings b)) as [Hle | Hgt]; [exact Hle|].
    exfalso. assert (movie_le a b = true) by (apply movie_le_iff; right; split; [exact Heq | lia]).
    congruence.
Qed.

Lemma movie_le_trans (a b c : Stats (Z * string)) :
  movie_le a b = true -> movie_le b c = true -> movie_le a c = true.
Proof.
  rewrite !movie_le_iff.
  intros [H1 | [E1 N1]] [H2 | [E2 N2]].
  - left. now apply Qlt_trans with (mean_rating b).
  - left. now rewrite <- E2.
  - left. now rewrite E1.
  - right. split; [now rewrite E1 | lia].
Qed.

Lemma StronglySorted_firstn {A} (R : A -> A -> Prop) (n : nat) (l : list A) :
  StronglySorted R l -> StronglySorted R (firstn n l).
Proof.
  intros H. revert n. induction H as [|x l Hl IH Hx]; intros [|n]; simpl;
    try constructor.
  - apply IH.
  - rewrite Forall_forall in *. intros y Hy. apply Hx.
    rewrite <- (firstn_skipn n l). apply in_or_app. now left.
Qed.

Lemma firstn_incl {A} (n : nat) (l : list A) (x : A) :
  In x (firstn n l) -> In x l.
Proof.
  intros H. rewrite <- (firstn_skipn n l). apply in_or_app. now left.
Qed.

Lemma filter_map_comm {A B} (f : A -> B) (p : B -> bool) (l : list A) :
  filter p (map f l) = map f (filter (fun x => p (f x)) l).
Proof.
  induction l as [|x l IH]; simpl; [reflexivity|].
  destruct (p (f x)); simpl; now rewrite IH.
Qed.

Lemma filter_perm {A} (p : A -> bool) (l1 l2 : list A) :
  Permutation l1 l2 -> Permutation (filter p l1) (filter p l2).
Proof.
  induction 1 as [|x l1 l2 H IH|x y l|l1 l2 l3 H1 IH1 H2 IH2]; simpl.
  - constructor.
  - destruct (p x); [now constructor | exact IH].
  - destruct (p x), (p y); try reflexivity. apply perm_swap.
  - now transitivity (filter p l2).
Qed.

Lemma movie_filtered_length (df : DataFrame) (m : Z) :
  length (movie_filtered df m) = length (movies_passing df m).
Proof.
  unfold movie_filtered, movie_stats, agg, groupby.
  rewrite map_map, filter_map_comm, length_map. simpl.
  apply Permutation_length, filter_perm, group_keys_perm.
Qed.

(** C4.  Q4 has [min(top_n, number of movies with at least
    min_ratings_movie ratings)] rows; every row is a movie of the table
    with [n_ratings >= min_ratings_movie]; and the rows are ordered by
    non-increasing mean rating, rows of equal mean rating by
    non-increasing count. *)
Theorem Q4_top_movies (df : DataFrame) (min_ratings_movie : Z) (top_n : nat) :
  length (Q4 df min_ratings_movie top_n)
  = Nat.min top_n (length (movies_passing df min_ratings_movie))
  /\ Forall (fun s => In s (movie_stats df)
                      /\ (min_ratings_movie <= n_ratings s)%Z)
            (Q4 df min_ratings_movie top_n)
  /\ StronglySorted
       (fun a b => (mean_rating b < mean_rating a)%Q
                   \/ ((mean_rating a == mean_rating b)%Q
                       /\ (n_ratings b <= n_ratings a)%Z))
       (Q4 df min_ratings_movie top_n).
Proof.
  unfold Q4. split; [|split].
  - rewrite length_firstn.
    rewrite (Permutation_length (stable_sort_perm _ _)).
    now rewrite movie_filtered_length.
  - apply Forall_forall. intros s Hs. apply firstn_incl in Hs.
    apply (Permutation_in _ (stable_sort_perm _ _)) in Hs.
    apply filter_In in Hs. now rewrite Z.leb_le in Hs.
  - apply StronglySorted_firstn.
    apply StronglySorted_weaken with (R := fun a b => movie_le a b = true).
    + intros a b. apply movie_le_iff.
    + apply stable_sort_sorted.
      * apply movie_le_trans.
      * intros x y H. exact H.
      * apply movie_le_total.
Qed.

(** ** Order of ties *)

Section Stability.
Variable A : Type.
Variable le : A -> A -> bool.
Variable P : A -> bool.
(** [P] selects rows that the order does not separate. *)
Hypothesis P_tied : forall a b, P a = true -> P b = true -> le a b = true.

Lemma insert_by_filter (x : A) (l : list A) :
  filter P (insert_by le x l) = filter P (x :: l).
Proof.
  induction l as [|y l IH]; [reflexivity|].
  simpl insert_by. destruct (le x y) eqn:E; [reflexivity|].
  simpl in *. rewrite IH.
  destruct (P x) eqn:Px; [|reflexivity].
  destruct (P y) eqn:Py; [|reflexivity].
  rewrite (P_tied Px Py) in E. discriminate.
Qed.

(** The stable sort leaves the rows selected by [P] in their order. *)
Lemma stable_sort_filter (l : list A) :
  filter P (stable_sort le l) = filter P l.
Proof.
  induction l as [|x l IH]; [reflexivity|].
  unfold stable_sort in *. simpl fold_right.
  rewrite insert_by_filter. simpl. now rewrite IH.
Qed.
End Stability.

Lemma same_mean_count_tied (v : Q) (c : Z) (a b : Stats (Z * string)) :
  same_mean_count v c a = true -> same_mean_count v c b = true ->
  movie_le a b = true.
Proof.
  unfold same_mean_count. rewrite !andb_true_iff, !Qeq_bool_iff, !Z.eqb_eq.
  intros [Ha Na] [Hb Nb]. apply movie_le_iff. right.
  split; [now rewrite Ha, Hb | lia].
Qed.

(** A list in order of its keys splits in the rows below a key, the rows
    at that key and the rows above it. *)
Lemma sorted_blocks {A} (by_ : A -> Q) (v : Q) (l : list A) :
  StronglySorted (fun a b => (by_ a <= by_ b)%Q) l ->
  l = filter (fun a => Qlt_bool (by_ a) v) l
      ++ filter (fun a => Qeq_bool (by_ a) v) l
      ++ filter (fun a => Qlt_bool v (by_ a)) l.
Proof.
  assert (Hlt : forall x y, Qlt_bool x y = true <-> (x < y)%Q).
  { intros x y. unfold Qlt_bool. rewrite negb_true_iff. split.
    - intros H. apply Qnot_le_lt. intros Hle. apply Qle_bool_iff in Hle. congruence.
    - intros H. destruct (Qle_bool y x) eqn:E; [|reflexivity].
      apply Qle_bool_iff in E. exfalso. now apply (Qlt_not_le x y). }
  assert (Hnlt : forall x y, (y <= x)%Q -> Qlt_bool x y = false).
  { intros x y H. destruct (Qlt_bool x y) eqn:E; [|reflexivity].
    apply Hlt in E. exfalso. now apply (Qlt_not_le x y). }
  induction 1 as [|x t Ht IH Hx]; [reflexivity|].
  rewrite Forall_forall in Hx. simpl.
  destruct (Q_dec (by_ x) v) as [[Hxv | Hvx] | Exv].
  - rewrite (proj2 (Hlt _ _) Hxv).
    rewrite (Hnlt v (by_ x)) by now apply Qlt_le_weak.
    replace (Qeq_bool (by_ x) v) with false.
    + simpl. now rewrite <- IH.
    + symmetry. apply not_true_is_false. intros E. apply Qeq_bool_iff in E.
      rewrite E in Hxv. now apply Qlt_irrefl in Hxv.
  - rewrite (proj2 (Hlt _ _) Hvx).
    rewrite (Hnlt (by_ x) v) by now apply Qlt_le_weak.
    replace (Qeq_bool (by_ x) v) with false.
    + rewrite (filter_none (fun a => Qlt_bool (by_ a) v) t).
      * rewrite (filter_none (fun a => Qeq_bool (by_ a) v) t).
        -- simpl. f_equal. symmetry. apply filter_all.
           intros y Hy. apply Hlt. apply Qlt_le_trans with (by_ x); auto.
        -- intros y Hy. apply not_true_is_false. intros E.
           apply Qeq_bool_iff in E. specialize (Hx y Hy). rewrite E in Hx.
           now apply (Qlt_not_le v (by_ x)).
      * intros y Hy. apply Hnlt. apply Qle_trans with (by_ x); auto.
        now apply Qlt_le_weak.
    + symmetry. apply not_true_is_false. intros E. apply Qeq_bool_iff in E.
      rewrite E in Hvx. now apply Qlt_irrefl in Hvx.
  - rewrite (Hnlt (by_ x) v) by (rewrite Exv; apply Qle_refl).
    rewrite (Hnlt v (by_ x)) by (rewrite Exv; apply Qle_refl).
    rewrite (proj2 (Qeq_bool_iff _ _) Exv).
    rewrite (filter_none (fun a => Qlt_bool (by_ a) v) t) in *.
    + simpl in *. now rewrite <- IH.
    + intros y Hy. apply Hnlt. rewrite <- Exv. now apply Hx.
    + intros y Hy. apply Hnlt. rewrite <- Exv. now apply Hx.
Qed.

Section TieOrder.
Context {AS : Argsort}.

(** C7, as amended.  In Q4 the movies that tie on mean rating and count
    come out in the order of the grouping: the tied rows of the output
    are the first of the tied rows of the grouped table, in the same
    order.  In Q2, whatever the position sort of [sort_values] does with
    equal keys, the genres that tie on a mean rating are the same rows as
    in the grouped table and come out next to one another, between the
    genres of lower and of higher mean rating; their order among
    themselves is the one the position sort leaves. *)
Theorem tie_order (df : DataFrame) :
  (forall m top_n v c,
      exists rest,
        filter (same_mean_count v c) (movie_filtered df m)
        = filter (same_mean_count v c) (Q4 df m top_n) ++ rest)
  /\ (forall m ascending v,
         Permutation (filter (same_mean v) (Q2 df m ascending))
                     (filter (same_mean v) (Q2_filtered df m)))
  /\ (forall m v,
         Q2 df m true
         = filter (below_mean v) (Q2 df m true)
           ++ filter (same_mean v) (Q2 df m true)
           ++ filter (above_mean v) (Q2 df m true))
  /\ (forall m v,
         Q2 df m false
         = filter (above_mean v) (Q2 df m false)
           ++ filter (same_mean v) (Q2 df m false)
           ++ filter (below_mean v) (Q2 df m false)).
Proof.
  split; [|split; [|split]].
  - intros m top_n v c. unfold Q4.
    exists (filter (same_mean_count v c)
              (skipn top_n (stable_sort movie_le (movie_filtered df m)))).
    rewrite <- filter_app, firstn_skipn.
    symmetry. apply stable_sort_filter. apply same_mean_count_tied.
  - intros m ascending v. apply filter_perm, Q2_perm.
  - intros m v. apply (sorted_blocks (@mean_rating _) v), Q2_sorted_asc.
  - intros m v.
    pose proof (StronglySorted_rev (Q2_sorted_desc df m)) as Hs.
    apply (sorted_blocks (@mean_rating _) v) in Hs.
    rewrite !filter_rev in Hs.
    apply (f_equal (@rev _)) in Hs.
    rewrite !rev_app_distr, !rev_involutive, <- app_assoc in Hs.
    exact Hs.
Qed.
End TieOrder.

(** C7, counterexample.  Q2 in its default descending order on four
    genres in two tied pairs, sorted as numpy sorts on a CPU with
    AVX-512: Horror comes before Drama, and Comedy before Action, against
    the order of the grouping. *)
Lemma Q2_tie_order_counterexample :
  map (@key _) (Q2_filtered tied_pairs 0)
  = [Some "Action"; Some "Comedy"; Some "Drama"; Some "Horror"]%string
  /\ map (@key _) (@Q2 avx512_argsort tied_pairs 0 false)
     = [Some "Horror"; Some "Drama"; Some "Comedy"; Some "Action"]%string
  /\ filter (same_mean 4) (@Q2 avx512_argsort tied_pairs 0 false)
     <> filter (same_mean 4) (Q2_filtered tied_pairs 0).
Proof.
  split; [reflexivity|]. split; [reflexivity|].
  vm_compute. discriminate.
Qed.

(** The same position sort on the two tied genres of [tied_genres]: the
    grouping order is kept in both directions; and on [tied_pairs] in
    ascending order, where it is kept as well. *)
Example Q2_avx512_small :
  map (@key _) (@Q2 avx512_argsort tied_genres 0 true)
  = [Some "Comedy"; Some "Horror"]%string
  /\ map (@key _) (@Q2 avx512_argsort tied_genres 0 false)
     = [Some "Comedy"; Some "Horror"]%string
  /\ map (@key _) (@Q2 avx512_argsort tied_pairs 0 true)
     = [Some "Action"; Some "Comedy"; Some "Drama"; Some "Horror"]%string.
Proof. repeat split; reflexivity. Qed.

(** The network on keys alone: equal keys among themselves stay; two
    tied pairs in falling order come out with both pairs turned. *)
Example argsort_8_64bit_ties :
  argsort_8_64bit Z.leb [7; 7; 7; 7; 7; 7; 7; 7]%Z = seq 0 8
  /\ argsort_8_64bit Z.leb [4; 4; 3; 3]%Z = [3; 2; 1; 0]%nat
  /\ argsort_8_64bit Z.leb [3; 3; 4; 4]%Z = [0; 1; 2; 3]%nat.
Proof. repeat split; reflexivity. Qed.

(** ** Q7: genre cleaning *)

Lemma split_on_nonempty (sep : ascii) (s : string) : split_on sep s <> [].
Proof.
  destruct s as [|c t]; simpl; [discriminate|].
  destruct (Ascii.eqb c sep); [discriminate|].
  destruct (split_on sep t); discriminate.
Qed.

Lemma split_on_no_sep (sep : ascii) (s : string) :
  has_char sep s = false -> split_on sep s = [s].
Proof.
  induction s as [|c t IH]; simpl; [reflexivity|].
  intros H. apply orb_false_iff in H. destruct H as [Hc Ht].
  rewrite Hc, (IH Ht). reflexivity.
Qed.

Lemma split_on_app (sep : ascii) (a b : string) :
  has_char sep a = false ->
  split_on sep (a ++ String sep b) = a :: split_on sep b.
Proof.
  induction a as [|c t IH]; simpl; intros H.
  - now rewrite Ascii.eqb_refl.
  - apply orb_false_iff in H. destruct H as [Hc Ht].
    rewrite Hc, (IH Ht). reflexivity.
Qed.

Lemma assign_genres_map (f : Row -> option string) (df : DataFrame) :
  assign_genres (map f df) df = map (fun r => set_genres (f r) r) df.
Proof.
  unfold assign_genres. induction df as [|r df IH]; simpl; [reflexivity|].
  now rewrite IH.
Qed.

Lemma Q7_cleaned_rows (df : DataFrame) :
  Q7_cleaned df
  = flat_map (fun p => exploded_row (fst p) (snd p)) (combine (seq 0 (length df)) df).
Proof.
  unfold Q7_cleaned, explode. generalize 0%nat as k.
  induction df as [|r df IH]; intros k; simpl; [reflexivity|].
  rewrite IH. reflexivity.
Qed.

Lemma exploded_row_index (i : nat) (r : Row) (x : nat * Row) :
  In x (exploded_row i r) -> fst x = i.
Proof.
  unfold exploded_row. destruct (str_split pipe (genres r)) as [[|t ts]|].
  - intros [<- | []]. reflexivity.
  - intros H. apply in_map_iff in H. destruct H as [tok [<- _]]. reflexivity.
  - intros [<- | []]. reflexivity.
Qed.

Lemma filter_index_exploded (df : DataFrame) (k i : nat) (r : Row) :
  nth_error df i = Some r ->
  filter (fun x => Nat.eqb (fst x) (k + i))
         (flat_map (fun p => exploded_row (fst p) (snd p))
                   (combine (seq k (length df)) df))
  = exploded_row (k + i) r.
Proof.
  revert k i. induction df as [|r0 df IH]; intros k i H.
  - destruct i; discriminate.
  - simpl. rewrite filter_app. destruct i as [|i]; simpl in H.
    + injection H as ->. rewrite Nat.add_0_r.
      rewrite filter_all.
      * rewrite filter_none; [apply app_nil_r|].
        intros x Hx. apply in_flat_map in Hx. destruct Hx as [p [Hp Hx]].
        apply exploded_row_index in Hx. destruct p as [j r'].
        apply in_combine_l, in_seq in Hp. simpl in Hx.
        apply Nat.eqb_neq. lia.
      * intros x Hx. apply exploded_row_index in Hx. now apply Nat.eqb_eq.
    + rewrite filter_none.
      * replace (k + S i)%nat with (S k + i)%nat by lia. now apply IH.
      * intros x Hx. apply exploded_row_index in Hx. apply Nat.eqb_neq. lia.
Qed.

(** C5.  Q7 first replaces the null genres by "(no genres listed)",
    leaving the other cells as they are, then splits every genre on the
    pipe and gives one row per piece under the index of the source row,
    with the other cells of the source row.  A row at index [i] whose
    genre is [a|b], with no pipe in [a] or [b], gives exactly two rows of
    index [i]: one of genre [a] and one of genre [b], equal to the source
    row in every other field. *)
Theorem Q7_genre_cleaning (df_ec : DataFrame) :
  Q7_filled df_ec
  = map (fun r => set_genres (fillna no_genres_listed (genres r)) r) df_ec
  /\ Q7_cleaned (Q7_filled df_ec)
     = flat_map (fun p =>
                   map (fun tok => (fst p, set_genres (Some tok) (snd p)))
                       (split_on pipe
                          (match genres (snd p) with
                           | Some g => g
                           | None => no_genres_listed
                           end)))
                (combine (seq 0 (length df_ec)) df_ec)
  /\ forall (i : nat) (r : Row) (a b : string),
       nth_error df_ec i = Some r ->
       genres r = Some (a ++ String pipe b)%string ->
       has_char pipe a = false -> has_char pipe b = false ->
       exists ra rb,
         filter (fun x => Nat.eqb (fst x) i) (Q7_cleaned (Q7_filled df_ec))
         = [(i, ra); (i, rb)]
         /\ genres ra = Some a /\ genres rb = Some b
         /\ same_other_fields r ra /\ same_other_fields r rb.
Proof.
  assert (Hfill : Q7_filled df_ec
                  = map (fun r => set_genres (fillna no_genres_listed (genres r)) r) df_ec).
  { apply assign_genres_map. }
  split; [exact Hfill|]. split.
  - rewrite Q7_cleaned_rows, Hfill, length_map.
    generalize 0%nat as k. clear.
    induction df_ec as [|r df IH]; intros k; simpl; [reflexivity|].
    rewrite IH. f_equal.
    unfold exploded_row. simpl.
    destruct (genres r) as [g|]; simpl.
    + pose proof (split_on_nonempty pipe g) as Hne.
      destruct (split_on pipe g) as [|t ts]; [congruence|]. reflexivity.
    + reflexivity.
  - intros i r a b Hrow Hgenre Ha Hb.
    exists (set_genres (Some a) r), (set_genres (Some b) r).
    split; [|repeat split].
    rewrite Q7_cleaned_rows.
    pose proof (@filter_index_exploded (Q7_filled df_ec) 0 i
                  (set_genres (fillna no_genres_listed (genres r)) r)) as Hf.
    change (0 + i)%nat with i in Hf. rewrite Hf.
    + unfold exploded_row. simpl. rewrite Hgenre. simpl.
      rewrite split_on_app, split_on_no_sep by assumption. reflexivity.
    + rewrite Hfill, nth_error_map, Hrow. reflexivity.
Qed.

(** A table of two rows, the second of genre [Action|Comedy]. *)
Lemma Q7_genre_cleaning_witness :
  exists ra rb,
    filter (fun x => Nat.eqb (fst x) 1)
           (Q7_cleaned (Q7_filled [set_genres None action_comedy; action_comedy]))
    = [(1%nat, ra); (1%nat, rb)]
    /\ genres ra = Some "Action"%string /\ genres rb = Some "Comedy"%string
    /\ same_other_fields action_comedy ra /\ same_other_fields action_comedy rb.
Proof.
  apply (Q7_genre_cleaning [set_genres None action_comedy; action_comedy]);
    reflexivity.
Defined.

(** ** Q5: rating against age *)

Lemma isin_In (g : option string) (values : list (option string)) :
  isin g values = true <-> In g values.
Proof.
  unfold isin. rewrite existsb_exists. split.
  - intros [v [Hv E]]. destruct (genre_eq_dec g v); [now subst | discriminate].
  - intros H. exists g. split; [exact H|].
    destruct (genre_eq_dec g g); [reflexivity | contradiction].
Qed.

Lemma rows_of_filter {A K} (eq_dec : forall x y : K, {x = y} + {x <> y})
    (by_ : A -> K) (p : A -> bool) (k : K) (frame : list A) :
  (forall r, by_ r = k -> In r frame -> p r = true) ->
  rows_of eq_dec by_ k (filter p frame) = rows_of eq_dec by_ k frame.
Proof.
  intros H. unfold rows_of. induction frame as [|r frame IH]; [reflexivity|].
  simpl. destruct (p r) eqn:Pr; simpl.
  - rewrite IH; [reflexivity|]. intros r' E Hr'. apply H; [exact E | now right].
  - destruct (eq_dec (by_ r) k) as [E|_].
    + rewrite (H r E (or_introl eq_refl)) in Pr. discriminate.
    + apply IH. intros r' E Hr'. apply H; [exact E | now right].
Qed.

(** C10.  For every table and every selection, of any size, Q5 is a table
    with one row per pair of an age and a genre label that occurs in a
    row of the table whose genre is selected, and no other row; the row
    carries the mean and the number of the ratings of the pair.  The
    empty selection gives the empty table. *)
Theorem Q5_rating_vs_age (df : DataFrame) (genres_to_compare : list (option string)) :
  let out := Q5 df genres_to_compare in
  NoDup (map (@key _) out)
  /\ (forall a g,
         In (a, g) (map (@key _) out) <->
         exists label, g = Some label /\ In (Some label) genres_to_compare
                       /\ exists r, In r df /\ age r = a /\ genres r = Some label)
  /\ (forall s, In s out ->
         exists label, snd (key s) = Some label
           /\ n_ratings s = Z.of_nat (length (rows_age_genre df (fst (key s)) label))
           /\ mean_rating s = Qmean (map rating (rows_age_genre df (fst (key s)) label))
           /\ (1 <= n_ratings s)%Z)
  /\ Q5 df [] = [].
Proof.
  intros out. unfold out, Q5.
  set (sub := filter genre_notna
                (filter (fun r => isin (genres r) genres_to_compare) df)).
  assert (Hsub : forall r, In r sub <->
                           In r df /\ In (genres r) genres_to_compare
                           /\ exists label, genres r = Some label).
  { intros r. unfold sub. rewrite !filter_In, isin_In. unfold genre_notna.
    destruct (genres r) as [g|]; split.
    - intros [[H1 H2] _]. repeat split; try assumption. now exists g.
    - tauto.
    - intros [_ H]. discriminate.
    - intros [_ [_ [label H]]]. discriminate. }
  assert (Hkeys : forall a g,
             In (a, g) (map (fun r => (age r, genres r)) sub) <->
             exists label, g = Some label /\ In (Some label) genres_to_compare
                           /\ exists r, In r df /\ age r = a /\ genres r = Some label).
  { intros a g. rewrite in_map_iff. split.
    - intros [r [E Hr]]. apply Hsub in Hr. destruct Hr as [Hdf [Hsel [label Hl]]].
      injection E as <- <-. exists label. rewrite <- Hl. repeat split; try assumption.
      exists r. now rewrite Hl.
    - intros [label [-> [Hsel [r [Hdf [<- Hl]]]]]].
      exists r. split; [now rewrite Hl|].
      apply Hsub. rewrite Hl. repeat split; try assumption. now exists label. }
  split; [apply agg_groupby_NoDup|].
  split.
  { intros a g. rewrite agg_groupby_keys, group_keys_In. apply Hkeys. }
  split.
  { intros s Hs. apply agg_groupby_In in Hs. destruct Hs as [Hk [Hm Hn]].
    destruct (key s) as [a g] eqn:Ek. pose proof Hk as Hk0. apply Hkeys in Hk.
    destruct Hk as [label [-> [Hsel _]]]. exists label. simpl.
    assert (E : rows_of age_genre_eq_dec (fun r => (age r, genres r)) (a, Some label) sub
                = rows_age_genre df a label).
    { unfold sub. rewrite !rows_of_filter; [reflexivity | |].
      - intros r Er _. injection Er as _ Eg. apply isin_In. now rewrite Eg.
      - intros r Er _. injection Er as _ Eg. unfold genre_notna. now rewrite Eg. }
    rewrite <- E. repeat split; try assumption.
    rewrite Hn.
    pose proof (@rows_of_nonempty _ _ age_genre_eq_dec (fun r => (age r, genres r))
                  sub (a, Some label)) as Hne.
    destruct (rows_of age_genre_eq_dec (fun r => (age r, genres r)) (a, Some label) sub).
    - exfalso. now apply Hne.
    - simpl length. lia. }
  rewrite (filter_none (fun r => isin (genres r) []) df) by reflexivity.
  reflexivity.
Qed.

(** ** The tables under the queries *)

Lemma fill_fixed (df_ec : DataFrame) :
  map (fun r => set_genres (fillna no_genres_listed (genres r)) r) df_ec = df_ec
  <-> Forall (fun r => genres r <> None) df_ec.
Proof.
  induction df_ec as [|r df IH]; simpl.
  - split; [constructor | reflexivity].
  - split.
    + intros H. injection H as Hr Hdf. constructor; [|now apply IH].
      intros E. rewrite E in Hr. simpl in Hr.
      rewrite <- Hr in E. discriminate E.
    + intros H. inversion H as [|? ? Hr Hdf]; subst.
      f_equal; [|now apply IH].
      destruct r as [u m t g x y a]. simpl in *.
      destruct g; [reflexivity | contradiction].
Qed.

Section Frame.
Context {AS : Argsort}.

(** C8, as amended.  The tabs Q1 to Q6 leave both tables of [main] as
    they are.  Q7 leaves [df] as it is, and overwrites the genre column
    of its own table [df_ec]: the null genres become "(no genres
    listed)" and no other cell changes, so that [df_ec] is unchanged
    exactly when it has no null genre; the exploded table is a new
    table. *)
Theorem queries_frame (h : Heap) :
  (forall min_pct, snd (tab_Q1 min_pct h) = h)
  /\ (forall min_count ascending, snd (tab_Q2 min_count ascending h) = h)
  /\ (forall lo hi m w, snd (tab_Q3 lo hi m w h) = h)
  /\ (forall m top_n, snd (tab_Q4 m top_n h) = h)
  /\ (forall sel, snd (tab_Q5 sel h) = h)
  /\ snd (tab_Q6 h) = h
  /\ h_df (snd (tab_Q7 h)) = h_df h
  /\ h_df_ec (snd (tab_Q7 h))
     = map (fun r => set_genres (fillna no_genres_listed (genres r)) r) (h_df_ec h)
  /\ (snd (tab_Q7 h) = h <-> Forall (fun r => genres r <> None) (h_df_ec h))
  /\ fst (tab_Q7 h)
     = (head 5 (h_df_ec h), head 5 (Q7_cleaned (Q7_filled (h_df_ec h)))).
Proof.
  repeat (split; [reflexivity|]).
  assert (E : h_df_ec (snd (tab_Q7 h))
              = map (fun r => set_genres (fillna no_genres_listed (genres r)) r)
                    (h_df_ec h)).
  { unfold tab_Q7, bind, read_df_ec, store_genres_ec, ret. simpl.
    apply assign_genres_map. }
  split; [exact E|]. split; [|reflexivity].
  rewrite <- fill_fixed, <- E. split.
  - intros ->. reflexivity.
  - intros H. destruct h as [d e].
    unfold tab_Q7, bind, read_df_ec, store_genres_ec, ret in *. simpl in *.
    now rewrite H.
Qed.
End Frame.

(** C8, counterexample.  Q7 changes its table when a genre is null. *)
Lemma Q7_mutates_counterexample :
  snd (tab_Q7 (mkHeap [] null_genre)) <> mkHeap [] null_genre.
Proof. vm_compute. discriminate. Qed.

(** ** The loaders *)

Section LoaderFacts.
Variable Content : Type.
Variable read_csv : Content -> option DataFrame.

(** C9.  The two loaders read the same path and give the same result on
    every file system: the same table, or the same error.  The Q7 tab
    therefore works on the table that the primary loader gives. *)
Theorem loaders_equal (file_ : Path) (fs : FileSystem Content) :
  load_movie_ratings_ec read_csv file_ fs = load_movie_ratings read_csv file_ fs
  /\ load_movie_ratings read_csv file_ fs
     = match data_path file_ with
       | Some p => pd_read_csv read_csv fs p
       | None => inl IndexError
       end
  /\ load_movie_ratings_ec read_csv file_ fs
     = match data_path file_ with
       | Some p => pd_read_csv read_csv fs p
       | None => inl IndexError
       end
  /\ (forall df, run_Q7 read_csv file_ fs df
                 = match load_movie_ratings read_csv file_ fs with
                   | inl e => inl e
                   | inr t => inr (tab_Q7 (mkHeap df t))
                   end)
  /\ (load_movie_ratings read_csv file_ fs = inl FileNotFoundError <->
      load_movie_ratings_ec read_csv file_ fs = inl FileNotFoundError).
Proof.
  split; [reflexivity|].
  split.
  { unfold load_movie_ratings, data_path. now destruct (parents file_ 2). }
  split.
  { unfold load_movie_ratings_ec, data_path. now destruct (parents file_ 2). }
  split; [reflexivity | tauto].
Qed.
End LoaderFacts.

(** ** The queries on the sample tables *)

(** The end-to-end example of the specification: Comedy has mean 4.5 over
    two ratings, Drama 3.0 over one, and a descending sort puts Comedy
    first. *)
Example Q2_comedy_drama :
  map (fun s => (key s, Qred (mean_rating s), n_ratings s))
      (@Q2 stable_argsort comedy_drama 1 false)
  = [ (Some "Comedy"%string, 9 # 2, 2%Z); (Some "Drama"%string, 3 # 1, 1%Z) ].
Proof. reflexivity. Qed.

(** Drama holds a third of the rows: under a threshold of 50 percent it is
    folded into "Other", under a threshold of 0 it is not. *)
Example Q1_comedy_drama :
  map (fun g => (gc_genres g, gc_count g, Qred (gc_pct g)))
      (@Q1 stable_argsort comedy_drama 50)
  = [ (Some "Comedy"%string, 2%Z, 200 # 3); (Some "Other"%string, 1%Z, 100 # 3) ]
  /\ map (fun g => (gc_genres g, gc_count g, Qred (gc_pct g)))
         (@Q1 stable_argsort comedy_drama 0)
     = [ (Some "Comedy"%string, 2%Z, 200 # 3); (Some "Drama"%string, 1%Z, 100 # 3) ].
Proof. split; reflexivity. Qed.

(** A centred window of 3 over the means 1, 2, 3, 6: the two interior
    positions get the mean of three values, the two ends get none. *)
Example rolling_mean_window3 :
  map (option_map Qred) (rolling_mean 3 [1; 2; 3; 6]%Q)
  = [None; Some (2 # 1); Some (11 # 3); None].
Proof. reflexivity. Qed.

Example Q3_comedy_drama :
  map (fun r => (yr_year r, Qred (yr_mean r), yr_n r, option_map Qred (yr_smoothed r)))
      (@Q3 stable_argsort comedy_drama 1980 1990 1 1)
  = [ (1980%Z, 9 # 2, 2%Z, Some (9 # 2)); (1984%Z, 3 # 1, 1%Z, Some (3 # 1)) ].
Proof. reflexivity. Qed.

Example Q4_comedy_drama :
  map (fun s => (snd (key s), Qred (mean_rating s), n_ratings s))
      (Q4 comedy_drama 1 1)
  = [ ("Airplane"%string, 9 # 2, 2%Z) ].
Proof. reflexivity. Qed.

Example Q5_comedy_drama :
  map (fun s => (key s, Qred (mean_rating s), n_ratings s))
      (Q5 comedy_drama [Some "Comedy"%string])
  = [ ((25%Z, Some "Comedy"%string), 4 # 1, 1%Z);
      ((31%Z, Some "Comedy"%string), 5 # 1, 1%Z) ].
Proof. reflexivity. Qed.

Example Q7_null_genre :
  map (fun x => (fst x, genres (snd x)))
      (snd (fst (tab_Q7 (mkHeap [] (null_genre ++ [action_comedy])))))
  = [ (0%nat, Some "(no genres listed)"%string);
      (1%nat, Some "Action"%string); (1%nat, Some "Comedy"%string) ].
Proof. reflexivity. Qed.

(** * Further properties of the queries *)

(** ** Counts and sizes *)

Lemma agg_counts_sum {K} (eq_dec : forall x y : K, {x = y} + {x <> y})
    (le : K -> K -> bool) (by_ : Row -> K) (frame : DataFrame) :
  Zsum (map (@n_ratings K) (agg (groupby eq_dec le by_ frame)))
  = Z.of_nat (length frame).
Proof.
  unfold agg. rewrite map_map. simpl. apply groupby_sizes_sum.
Qed.

Lemma agg_counts_pos {K} (eq_dec : forall x y : K, {x = y} + {x <> y})
    (le : K -> K -> bool) (by_ : Row -> K) (frame : DataFrame) :
  Forall (fun s => (1 <= n_ratings s)%Z) (agg (groupby eq_dec le by_ frame)).
Proof.
  apply Forall_forall. intros s Hs. apply agg_groupby_In in Hs.
  destruct Hs as [Hk [_ Hn]]. rewrite Hn.
  pose proof (@rows_of_nonempty _ _ eq_dec by_ frame (key s) Hk) as Hne.
  destruct (rows_of eq_dec by_ (key s) frame); [congruence | simpl length; lia].
Qed.

Lemma agg_groupby_length {K} (eq_dec : forall x y : K, {x = y} + {x <> y})
    (le : K -> K -> bool) (by_ : Row -> K) (frame : DataFrame) :
  length (agg (groupby eq_dec le by_ frame))
  = length (nodup eq_dec (map by_ frame)).
Proof.
  unfold agg, groupby. rewrite !length_map.
  apply Permutation_length, group_keys_perm.
Qed.

Lemma nodup_shorter {K} (eq_dec : forall x y : K, {x = y} + {x <> y})
    (keys : list K) :
  (length (nodup eq_dec keys) <= length keys)%nat.
Proof.
  apply NoDup_incl_length; [apply NoDup_nodup|].
  intros k Hk. now apply nodup_In in Hk.
Qed.

Lemma filter_shorter {A} (keep : A -> bool) (rows : list A) :
  (length (filter keep rows) <= length rows)%nat.
Proof.
  induction rows as [|r rows IH]; simpl; [lia|].
  destruct (keep r); simpl; lia.
Qed.

(** X10.  Grouping loses no rating and counts none twice: the counts of
    the genre, year and movie groups each add up to the number of rows of
    the table, the counts of Q6 to the number of rows with a genre, the
    counts of Q5 to the number of rows with a selected genre; and every
    group has at least one rating. *)
Theorem group_counts_partition (df : DataFrame) (sel : list (option string)) :
  Zsum (map (@n_ratings _) (genre_stats df)) = Z.of_nat (length df)
  /\ Zsum (map (@n_ratings _) (year_stats df)) = Z.of_nat (length df)
  /\ Zsum (map (@n_ratings _) (movie_stats df)) = Z.of_nat (length df)
  /\ Zsum (map (@n_ratings _) (Q6 df))
     = Z.of_nat (length (filter genre_notna df))
  /\ Zsum (map (@n_ratings _) (Q5 df sel))
     = Z.of_nat (length (filter (fun r => (isin (genres r) sel
                                           && genre_notna r)%bool) df))
  /\ Forall (fun s => (1 <= n_ratings s)%Z) (genre_stats df)
  /\ Forall (fun s => (1 <= n_ratings s)%Z) (year_stats df)
  /\ Forall (fun s => (1 <= n_ratings s)%Z) (movie_stats df)
  /\ Forall (fun s => (1 <= n_ratings s)%Z) (Q6 df)
  /\ Forall (fun s => (1 <= n_ratings s)%Z) (Q5 df sel).
Proof.
  repeat split; try apply agg_counts_sum; try apply agg_counts_pos.
  unfold Q5. rewrite agg_counts_sum. do 2 f_equal.
  induction df as [|r df IH]; simpl; [reflexivity|].
  destruct (isin (genres r) sel); simpl; [|exact IH].
  destruct (genre_notna r); simpl; now rewrite IH.
Qed.

Section Q1More.
Context {AS : Argsort}.

Lemma major_minor_length (df : DataFrame) (min_pct : Q) :
  (length (major df min_pct) + length (minor df min_pct))%nat
  = length (genre_counts df).
Proof.
  rewrite <- length_app. symmetry.
  apply Permutation_length. apply filter_split_perm.
Qed.

Lemma genre_counts_length (df : DataFrame) :
  length (genre_counts df) = length (nodup genre_eq_dec (map genres df)).
Proof.
  rewrite (Permutation_length (genre_counts_perm df)). apply length_map.
Qed.

Lemma gc_pct_of_count (df : DataFrame) (g : GenreCount) :
  In g (genre_counts df) ->
  gc_pct g = (100 * inject_Z (gc_count g) / inject_Z (pct_divisor df))%Q.
Proof.
  unfold genre_counts. rewrite in_map_iff. intros [s [<- _]]. reflexivity.
Qed.

(** X1.  The counts of the rows of Q1, the "Other" row included, add up
    to the number of rows of the table, and the percentage of every output
    row is the share of its own count in [max(total, 1)]. *)
Theorem Q1_counts_total (df : DataFrame) (min_pct : Q) :
  Zsum (map gc_count (Q1 df min_pct)) = Z.of_nat (length df)
  /\ Forall (fun g => (gc_pct g
                       == 100 * inject_Z (gc_count g) / inject_Z (pct_divisor df))%Q)
            (Q1 df min_pct).
Proof.
  assert (Hsplit : (Zsum (map gc_count (major df min_pct))
                    + Zsum (map gc_count (minor df min_pct)))%Z
                   = Z.of_nat (length df)).
  { rewrite <- Zsum_app, <- map_app. unfold major, minor, Qlt_bool.
    rewrite <- (Zsum_perm (Permutation_map gc_count
                            (filter_split_perm
                               (fun g => Qle_bool min_pct (gc_pct g))
                               (genre_counts df)))).
    unfold genre_counts. rewrite map_map. simpl. apply genre_sizes_total. }
  assert (Hmajor : Forall (fun g => (gc_pct g
                     == 100 * inject_Z (gc_count g) / inject_Z (pct_divisor df))%Q)
                          (major df min_pct)).
  { apply Forall_forall. intros g Hg. apply filter_In in Hg.
    rewrite (gc_pct_of_count df g) by tauto. reflexivity. }
  rewrite Q1_unfold. unfold other_row.
  destruct (minor df min_pct) as [|g0 rest] eqn:E.
  - rewrite app_nil_r. split; [|exact Hmajor].
    change (Zsum (map gc_count [])) with 0%Z in Hsplit. lia.
  - split.
    + rewrite map_app, Zsum_app.
      change (Zsum (map gc_count [mkGenreCount (Some "Other"%string)
                                    (Zsum (map gc_count (g0 :: rest)))
                                    (Qsum (map gc_pct (g0 :: rest)))]))
        with (Zsum (map gc_count (g0 :: rest)) + 0)%Z.
      lia.
    + apply Forall_app. split; [exact Hmajor|].
      constructor; [|constructor]. cbn [gc_pct gc_count].
      assert (Hext : map gc_pct (g0 :: rest)
                     = map (fun g => (100 * inject_Z (gc_count g)
                                      / inject_Z (pct_divisor df))%Q) (g0 :: rest)).
      { apply map_ext_in. intros g Hg. apply gc_pct_of_count.
        rewrite <- E in Hg. apply filter_In in Hg. tauto. }
      rewrite Hext.
      rewrite <- (map_map gc_count
                    (fun c => (100 * inject_Z c / inject_Z (pct_divisor df))%Q)).
      apply Qsum_scaled.
Qed.
End Q1More.

Lemma StronglySorted_filter {A} (R : A -> A -> Prop) (keep : A -> bool)
    (rows : list A) :
  StronglySorted R rows -> StronglySorted R (filter keep rows).
Proof.
  induction 1 as [|r rows Hs IH Hr]; simpl; [constructor|].
  destruct (keep r); [|exact IH].
  constructor; [exact IH|].
  rewrite Forall_forall in *. intros x Hx. apply Hr.
  apply filter_In in Hx. tauto.
Qed.

Lemma length_zero_nil {A} (l : list A) : (length l <= 0)%nat -> l = [].
Proof. destruct l; simpl; [reflexivity | lia]. Qed.

Lemma rows_of_shorter {A K} (eq_dec : forall x y : K, {x = y} + {x <> y})
    (by_ : A -> K) (k : K) (frame : list A) :
  (length (rows_of eq_dec by_ k frame) <= length frame)%nat.
Proof. apply filter_shorter. Qed.

Section OrderAndSizes.
Context {AS : Argsort}.

Lemma genre_counts_sorted (df : DataFrame) :
  StronglySorted (fun a b => (gc_count b <= gc_count a)%Z) (genre_counts df).
Proof.
  unfold genre_counts.
  apply (StronglySorted_map
           (fun g : option string * Z =>
              mkGenreCount (fst g) (snd g)
                (100 * inject_Z (snd g) / inject_Z (pct_divisor df))%Q)
           (fun a b => (gc_count b <= gc_count a)%Z)).
  simpl.
  apply (StronglySorted_map (@snd (option string) Z) (fun x y => (y <= x)%Z)).
  apply StronglySorted_weaken with (R := fun x y => (y <=? x)%Z = true).
  - intros a b. apply Z.leb_le.
  - apply sort_values_sorted_desc; [apply Zleb_total | apply Zleb_trans].
Qed.

(** X2.  The genre rows of Q1 come in non-increasing order of count, and
    the "Other" row, when there is one, is the last row. *)
Theorem Q1_order (df : DataFrame) (min_pct : Q) :
  exists rows tail,
    Q1 df min_pct = rows ++ tail
    /\ rows = filter (fun g => Qle_bool min_pct (gc_pct g)) (genre_counts df)
    /\ StronglySorted (fun a b => (gc_count b <= gc_count a)%Z) rows
    /\ (tail = [] \/ tail = [other_row df min_pct]).
Proof.
  exists (major df min_pct).
  exists (match minor df min_pct with
          | [] => []
          | _ :: _ => [other_row df min_pct]
          end).
  split; [apply Q1_unfold|]. split; [reflexivity|]. split.
  - apply StronglySorted_filter, genre_counts_sorted.
  - destruct (minor df min_pct); [now left | now right].
Qed.

Lemma sort_values_length {A K} (by_ : A -> K) (le : K -> K -> bool)
    (ascending : bool) (frame : list A) :
  length (sort_values by_ le ascending frame) = length frame.
Proof. apply Permutation_length, sort_values_perm. Qed.

(** X3.  No query gives more rows than its grouping has keys: Q1, Q2 and
    Q6 at most one row per distinct genre, Q3 per distinct year, Q4 at
    most [top_n] and at most one per distinct movie, Q5 at most one per
    row of the table.  On the empty table every query gives the empty
    table. *)
Theorem output_sizes (df : DataFrame) (min_pct : Q) (m : Z) (ascending : bool)
    (lo hi w : Z) (top_n : nat) (sel : list (option string)) :
  (length (Q1 df min_pct) <= length (nodup genre_eq_dec (map genres df)))%nat
  /\ (length (Q2 df m ascending)
      <= length (nodup genre_eq_dec (map genres df)))%nat
  /\ (length (Q3 df lo hi m w) <= length (nodup Z.eq_dec (map year df)))%nat
  /\ (length (Q4 df m top_n)
      <= Nat.min top_n (length (nodup Zstr_eq_dec (map movie_key df))))%nat
  /\ (length (Q5 df sel) <= length df)%nat
  /\ (length (Q6 df) <= length (nodup genre_eq_dec (map genres df)))%nat
  /\ (df = [] ->
      Q1 df min_pct = [] /\ Q2 df m ascending = [] /\ Q3 df lo hi m w = []
      /\ Q4 df m top_n = [] /\ Q5 df sel = [] /\ Q6 df = []).
Proof.
  assert (H1 : (length (Q1 df min_pct)
                <= length (nodup genre_eq_dec (map genres df)))%nat).
  { rewrite <- genre_counts_length, <- (major_minor_length df min_pct), Q1_unfold.
    rewrite length_app. destruct (minor df min_pct); simpl; lia. }
  assert (H2 : (length (Q2 df m ascending)
                <= length (nodup genre_eq_dec (map genres df)))%nat).
  { unfold Q2. rewrite sort_values_length. unfold Q2_filtered.
    rewrite <- (agg_groupby_length genre_eq_dec genre_leb genres df).
    apply filter_shorter. }
  assert (H3 : (length (Q3 df lo hi m w)
                <= length (nodup Z.eq_dec (map year df)))%nat).
  { destruct (Q3_columns df lo hi m w) as [Hc _].
    rewrite <- (length_map (fun r => mkStats (yr_year r) (yr_mean r) (yr_n r))), Hc.
    unfold year_filtered. rewrite sort_values_length.
    rewrite <- (agg_groupby_length Z.eq_dec Z.leb year df).
    apply filter_shorter. }
  assert (H4 : (length (Q4 df m top_n)
                <= Nat.min top_n (length (nodup Zstr_eq_dec (map movie_key df))))%nat).
  { unfold Q4. rewrite length_firstn.
    rewrite (Permutation_length (stable_sort_perm _ _)).
    pose proof (filter_shorter (fun s => (m <=? n_ratings s)%Z) (movie_stats df)) as Hf.
    fold (movie_filtered df m) in Hf. unfold movie_stats in Hf.
    rewrite agg_groupby_length in Hf.
    change (fun r : Row => (movie_id r, title r)) with movie_key in Hf. lia. }
  assert (H5 : (length (Q5 df sel) <= length df)%nat).
  { unfold Q5. rewrite agg_groupby_length.
    etransitivity; [apply nodup_shorter|]. rewrite length_map.
    etransitivity; [apply filter_shorter|]. apply filter_shorter. }
  assert (H6 : (length (Q6 df)
                <= length (nodup genre_eq_dec (map genres df)))%nat).
  { unfold Q6. rewrite agg_groupby_length.
    apply NoDup_incl_length; [apply NoDup_nodup|].
    intros g Hg. apply nodup_In in Hg. apply nodup_In.
    apply in_map_iff in Hg. destruct Hg as [r [<- Hr]].
    apply in_map. apply filter_In in Hr. tauto. }
  repeat (split; [assumption|]).
  intros ->. simpl in *.
  repeat split; apply length_zero_nil; assumption || lia.
Qed.

(** X12.  In Q2 a threshold of at most 1 keeps every genre of the table, a
    threshold above the number of rows keeps none, and raising the
    threshold only removes rows. *)
Theorem Q2_thresholds (df : DataFrame) (ascending : bool) :
  (forall m, (m <= 1)%Z -> Permutation (Q2 df m ascending) (genre_stats df))
  /\ (forall m, (Z.of_nat (length df) < m)%Z -> Q2 df m ascending = [])
  /\ (forall m m' s, (m <= m')%Z ->
                     In s (Q2 df m' ascending) -> In s (Q2 df m ascending)).
Proof.
  split; [|split].
  - intros m Hm. unfold Q2. rewrite sort_values_perm. unfold Q2_filtered.
    rewrite filter_all; [reflexivity|].
    intros s Hs. apply Z.leb_le.
    pose proof (agg_counts_pos genre_eq_dec genre_leb genres df) as Hp.
    rewrite Forall_forall in Hp. specialize (Hp s Hs). lia.
  - intros m Hm. apply length_zero_nil. unfold Q2.
    rewrite sort_values_length. unfold Q2_filtered.
    rewrite filter_none; [simpl; lia|].
    intros s Hs. apply Z.leb_gt.
    apply agg_groupby_In in Hs. destruct Hs as [_ [_ Hn]]. rewrite Hn.
    pose proof (rows_of_shorter genre_eq_dec genres (key s) df). lia.
  - intros m m' s Hm Hs.
    apply (Permutation_in _ (Permutation_sym (Q2_perm df m ascending))).
    apply (Permutation_in _ (Q2_perm df m' ascending)) in Hs.
    unfold Q2_filtered in *. rewrite filter_In in *.
    rewrite Z.leb_le in *. split; [tauto | lia].
Qed.
End OrderAndSizes.

(** The queries on the empty table. *)
Lemma output_sizes_witness :
  @Q1 stable_argsort [] 2 = [] /\ @Q2 stable_argsort [] 50 false = []
  /\ @Q3 stable_argsort [] 1990 2000 50 3 = [] /\ Q4 [] 50 5 = []
  /\ Q5 [] [None] = [] /\ Q6 [] = [].
Proof.
  apply (@output_sizes stable_argsort [] 2 50 false 1990 2000 3 5 [None]).
  reflexivity.
Defined.

(** Three ratings cannot reach a threshold of four. *)
Lemma Q2_thresholds_witness : @Q2 stable_argsort comedy_drama 4 true = [].
Proof.
  apply (@Q2_thresholds stable_argsort comedy_drama true). simpl. lia.
Defined.

(** X11.  Raising [top_n] in Q4 only appends rows; when [top_n] reaches the
    number of movies that pass the threshold every one of them is shown;
    and a threshold of at most 1 lets every movie pass. *)
Theorem Q4_top_n_prefix (df : DataFrame) (m : Z) :
  (forall n k, Q4 df m n = firstn n (Q4 df m (n + k)))
  /\ (forall n, (length (movies_passing df m) <= n)%nat ->
                Permutation (Q4 df m n) (movie_filtered df m))
  /\ ((m <= 1)%Z -> movie_filtered df m = movie_stats df).
Proof.
  split; [|split].
  - intros n k. unfold Q4. rewrite firstn_firstn.
    now replace (Nat.min n (n + k)) with n by lia.
  - intros n Hn. unfold Q4.
    rewrite firstn_all2; [apply stable_sort_perm|].
    rewrite (Permutation_length (stable_sort_perm _ _)).
    now rewrite movie_filtered_length.
  - intros Hm. unfold movie_filtered. apply filter_all.
    intros s Hs. apply Z.leb_le.
    pose proof (agg_counts_pos Zstr_eq_dec Zstr_leb
                  (fun r => (movie_id r, title r)) df) as Hp.
    rewrite Forall_forall in Hp. specialize (Hp s Hs). lia.
Qed.

(** With room for five rows the two movies of the sample are both shown. *)
Lemma Q4_top_n_prefix_witness :
  Permutation (Q4 comedy_drama 1 5) (movie_filtered comedy_drama 1).
Proof.
  apply (Q4_top_n_prefix comedy_drama 1). vm_compute. lia.
Defined.

(** ** The year slider and the smoothing of Q3 *)

Lemma fold_min_spec (t : list Z) (x : Z) :
  In (fold_left Z.min t x) (x :: t)
  /\ Forall (fun y => (fold_left Z.min t x <= y)%Z) (x :: t).
Proof.
  revert x. induction t as [|y t IH]; intros x; simpl.
  - split; [now left | repeat constructor; lia].
  - destruct (IH (Z.min x y)) as [Hin Hall]. split.
    + destruct Hin as [E | Hin]; [|now right; right].
      rewrite <- E. destruct (Z.min_spec x y) as [[_ ->] | [_ ->]]; auto.
    + inversion Hall as [|? ? Hm Ht]; subst.
      constructor; [lia|]. constructor; [lia | exact Ht].
Qed.

Lemma fold_max_spec (t : list Z) (x : Z) :
  In (fold_left Z.max t x) (x :: t)
  /\ Forall (fun y => (y <= fold_left Z.max t x)%Z) (x :: t).
Proof.
  revert x. induction t as [|y t IH]; intros x; simpl.
  - split; [now left | repeat constructor; lia].
  - destruct (IH (Z.max x y)) as [Hin Hall]. split.
    + destruct Hin as [E | Hin]; [|now right; right].
      rewrite <- E. destruct (Z.max_spec x y) as [[_ ->] | [_ ->]]; auto.
    + inversion Hall as [|? ? Hm Ht]; subst.
      constructor; [lia|]. constructor; [lia | exact Ht].
Qed.

(** X4.  The bounds of the year slider cannot be computed on the empty
    table, and only there ([int(NaN)] raises).  On any other table they
    are the least and the greatest release year of the table: both occur
    in it and every row lies between them. *)
Theorem year_slider_bounds_spec (df : DataFrame) :
  (year_slider_bounds df = None <-> df = [])
  /\ (forall lo hi, year_slider_bounds df = Some (lo, hi) ->
        In lo (map year df) /\ In hi (map year df)
        /\ forall r, In r df -> (lo <= year r <= hi)%Z).
Proof.
  unfold year_slider_bounds. destruct df as [|r0 df]; simpl.
  - split; [tauto | discriminate].
  - split; [split; discriminate|].
    intros lo hi E. injection E as <- <-.
    destruct (fold_min_spec (map year df) (year r0)) as [Hmin Hle].
    destruct (fold_max_spec (map year df) (year r0)) as [Hmax Hge].
    split; [exact Hmin|]. split; [exact Hmax|].
    intros r Hr. rewrite Forall_forall in Hle, Hge.
    assert (Hy : In (year r) (year r0 :: map year df)).
    { destruct Hr as [-> | Hr]; [now left | right; now apply in_map]. }
    split; [now apply Hle | now apply Hge].
Qed.

(** The years of the sample run from 1980 to 1984. *)
Lemma year_slider_bounds_spec_witness :
  In 1980%Z (map year comedy_drama) /\ In 1984%Z (map year comedy_drama)
  /\ forall r, In r comedy_drama -> (1980 <= year r <= 1984)%Z.
Proof.
  apply (year_slider_bounds_spec comedy_drama). reflexivity.
Defined.

Section Q3More.
Context {AS : Argsort}.

Lemma Q3_years_In (df : DataFrame) (lo hi m w y : Z) :
  In y (map yr_year (Q3 df lo hi m w)) <->
  In y (map year df) /\ (lo <= y <= hi)%Z /\ (m <= count_year df y)%Z.
Proof.
  destruct (Q3_columns df lo hi m w) as [Hc _].
  assert (E : map yr_year (Q3 df lo hi m w)
              = map (@key _) (year_filtered df lo hi m)).
  { rewrite <- Hc, map_map. reflexivity. }
  rewrite E, in_map_iff. split.
  - intros [s [<- Hs]]. apply year_filtered_In in Hs.
    destruct Hs as [Hs [Hr Hn]]. apply agg_groupby_In in Hs.
    destruct Hs as [Hk [_ En]]. unfold count_year. rewrite <- En. tauto.
  - intros [Hy [Hr Hn]].
    exists (mkStats y (mean_year df y) (count_year df y)).
    split; [reflexivity|].
    apply year_filtered_In. simpl. split; [|tauto].
    apply agg_groupby_In. simpl. tauto.
Qed.

(** X5.  With the default value of the year slider, the full range from
    [min_year] to [max_year], Q3 drops no year for its date: its years are
    the years of the table with at least [m] ratings, and all the years of
    the table when [m <= 1]. *)
Theorem Q3_default_range (df : DataFrame) (lo hi m w : Z)
    (Hbounds : year_slider_bounds df = Some (lo, hi)) :
  (forall y, In y (map yr_year (Q3 df lo hi m w)) <->
             In y (map year df) /\ (m <= count_year df y)%Z)
  /\ ((m <= 1)%Z ->
      forall y, In y (map yr_year (Q3 df lo hi m w)) <-> In y (map year df)).
Proof.
  destruct (year_slider_bounds_spec df) as [_ Hspec].
  destruct (Hspec lo hi Hbounds) as [_ [_ Hrange]].
  assert (Hin : forall y, In y (map year df) -> (lo <= y <= hi)%Z).
  { intros y Hy. apply in_map_iff in Hy. destruct Hy as [r [<- Hr]].
    now apply Hrange. }
  split.
  - intros y. rewrite Q3_years_In. split; [tauto|].
    intros [Hy Hm]. repeat split; try assumption; now apply Hin.
  - intros Hm y. rewrite Q3_years_In. split; [tauto|].
    intros Hy. split; [exact Hy|]. split; [now apply Hin|].
    unfold count_year.
    pose proof (@rows_of_nonempty _ _ Z.eq_dec year df y Hy) as Hne.
    destruct (rows_of Z.eq_dec year y df); [congruence | simpl length; lia].
Qed.

Lemma rolling_mean_short (w : Z) (values : list Q) :
  (0 < w)%Z -> (Z.of_nat (length values) < w)%Z ->
  Forall (fun o => o = None) (rolling_mean w values).
Proof.
  intros Hw Hshort. apply Forall_forall. intros o Ho.
  apply In_nth_error in Ho. destruct Ho as [i Hi].
  assert (Hlt : (i < length values)%nat).
  { rewrite <- (rolling_mean_length w values).
    apply nth_error_Some. congruence. }
  rewrite (@rolling_mean_edge w values i Hw Hlt) in Hi; [congruence|].
  lia.
Qed.

(** X6.  When fewer years pass the filters of Q3 than the window is wide,
    no row has a smoothed value. *)
Theorem Q3_short_series (df : DataFrame) (lo hi m w : Z)
    (Hw : (1 < w)%Z)
    (Hshort : (Z.of_nat (length (Q3 df lo hi m w)) < w)%Z) :
  Forall (fun r => yr_smoothed r = None) (Q3 df lo hi m w).
Proof.
  destruct (Q3_columns df lo hi m w) as [Hc Hs].
  assert (Hlen : length (Q3 df lo hi m w) = length (year_filtered df lo hi m)).
  { rewrite <- Hc. now rewrite length_map. }
  unfold smoothed in Hs. apply Z.ltb_lt in Hw. rewrite Hw in Hs. simpl in Hs.
  apply Z.ltb_lt in Hw.
  rewrite <- (Forall_map yr_smoothed (fun o => o = None)), Hs.
  destruct (length (year_filtered df lo hi m)) eqn:E; simpl.
  - rewrite (length_zero_nil (year_filtered df lo hi m)) by lia. constructor.
  - apply rolling_mean_short; [lia|]. rewrite length_map, E, <- Hlen. exact Hshort.
Qed.

(** X7.  The smoothing window changes nothing but the smoothed column:
    the years, mean ratings and counts of Q3 are the same for every
    window. *)
Theorem Q3_window_only_smooths (df : DataFrame) (lo hi m w w' : Z) :
  map (fun r => (yr_year r, yr_mean r, yr_n r)) (Q3 df lo hi m w)
  = map (fun r => (yr_year r, yr_mean r, yr_n r)) (Q3 df lo hi m w').
Proof.
  destruct (Q3_columns df lo hi m w) as [Hc _].
  destruct (Q3_columns df lo hi m w') as [Hc' _].
  rewrite <- Hc' in Hc.
  apply (f_equal (map (fun s : Stats Z => (key s, mean_rating s, n_ratings s)))) in Hc.
  rewrite !map_map in Hc. exact Hc.
Qed.
End Q3More.

(** The sample table spans 1980 to 1984; its last year is kept. *)
Lemma Q3_default_range_witness :
  year_slider_bounds comedy_drama = Some (1980%Z, 1984%Z)
  /\ In 1984%Z (map yr_year (@Q3 stable_argsort comedy_drama 1980 1984 1 1)).
Proof.
  split; [reflexivity|].
  destruct (@Q3_default_range stable_argsort comedy_drama 1980 1984 1 1 eq_refl)
    as [_ H].
  apply H; [lia|]. simpl. tauto.
Defined.

(** Two years pass, the window is three years wide. *)
Lemma Q3_short_series_witness :
  Forall (fun r => yr_smoothed r = None)
         (@Q3 stable_argsort comedy_drama 1980 1990 1 3).
Proof.
  apply (@Q3_short_series stable_argsort comedy_drama 1980 1990 1 3);
    [lia | vm_compute; reflexivity].
Defined.

(** ** Means stay within the ratings *)

Lemma Qsum_within (lo hi : Q) (l : list Q) :
  Forall (within lo hi) l ->
  (inject_Z (Z.of_nat (length l)) * lo <= Qsum l)%Q
  /\ (Qsum l <= inject_Z (Z.of_nat (length l)) * hi)%Q.
Proof.
  induction 1 as [|x l [Hlo Hhi] Hl [IHlo IHhi]].
  - simpl. split; rewrite Qmult_0_l; apply Qle_refl.
  - simpl length. rewrite Nat2Z.inj_succ. unfold Z.succ.
    rewrite inject_Z_plus. simpl Qsum. split.
    + setoid_replace ((inject_Z (Z.of_nat (length l)) + inject_Z 1) * lo)%Q
        with (lo + inject_Z (Z.of_nat (length l)) * lo)%Q by ring.
      now apply Qplus_le_compat.
    + setoid_replace ((inject_Z (Z.of_nat (length l)) + inject_Z 1) * hi)%Q
        with (hi + inject_Z (Z.of_nat (length l)) * hi)%Q by ring.
      now apply Qplus_le_compat.
Qed.

(** The mean of a non-empty list lies between bounds of its elements. *)
Lemma Qmean_within (lo hi : Q) (l : list Q) :
  l <> [] -> Forall (within lo hi) l -> within lo hi (Qmean l).
Proof.
  intros Hne Hall. destruct (Qsum_within Hall) as [Hlo Hhi].
  assert (Hpos : (0 < inject_Z (Z.of_nat (length l)))%Q).
  { rewrite <- (Zlt_Qlt 0). destruct l; [congruence | simpl length; lia]. }
  unfold Qmean. split.
  - apply Qle_shift_div_l; [exact Hpos|]. now rewrite Qmult_comm.
  - apply Qle_shift_div_r; [exact Hpos|]. now rewrite Qmult_comm.
Qed.

Lemma agg_means_within {K} (eq_dec : forall x y : K, {x = y} + {x <> y})
    (le : K -> K -> bool) (by_ : Row -> K) (lo hi : Q) (frame : DataFrame) :
  Forall (fun r => within lo hi (rating r)) frame ->
  Forall (fun s => within lo hi (mean_rating s)) (agg (groupby eq_dec le by_ frame)).
Proof.
  intros Hall. apply Forall_forall. intros s Hs.
  apply agg_groupby_In in Hs. destruct Hs as [Hk [Hm _]]. rewrite Hm.
  apply Qmean_within.
  - intros E. apply map_eq_nil in E. revert E. now apply rows_of_nonempty.
  - rewrite Forall_map. apply Forall_forall. intros r Hr.
    apply filter_In in Hr. rewrite Forall_forall in Hall. now apply Hall.
Qed.

Lemma slice_incl {A} (start end_ : Z) (l : list A) (x : A) :
  In x (slice start end_ l) -> In x l.
Proof.
  unfold slice. intros H. apply firstn_incl in H.
  rewrite <- (firstn_skipn (Z.to_nat start) l). apply in_or_app. now right.
Qed.

Lemma rolling_mean_within (lo hi : Q) (w : Z) (values : list Q) :
  (0 < w)%Z -> Forall (within lo hi) values ->
  Forall (fun o => match o with
                   | Some v => within lo hi v
                   | None => True
                   end) (rolling_mean w values).
Proof.
  intros Hw Hall. apply Forall_forall. intros o Ho.
  unfold rolling_mean in Ho. apply in_map_iff in Ho. destruct Ho as [i [<- _]].
  destruct (window_bounds w (Z.of_nat (length values)) (Z.of_nat i)) as [s e].
  destruct (w <=? Z.of_nat (length (slice s e values)))%Z eqn:E; [|exact I].
  apply Z.leb_le in E. apply Qmean_within.
  - intros E0. rewrite E0 in E. simpl in E. lia.
  - apply Forall_forall. intros x Hx. apply slice_incl in Hx.
    rewrite Forall_forall in Hall. now apply Hall.
Qed.

Lemma Forall_filter_keep {A} (P : A -> Prop) (keep : A -> bool) (rows : list A) :
  Forall P rows -> Forall P (filter keep rows).
Proof.
  rewrite !Forall_forall. intros H x Hx. apply filter_In in Hx. now apply H.
Qed.

Section RatingRange.
Context {AS : Argsort}.

(** X9.  When every rating of the table lies between [lo] and [hi], so
    does every mean rating that the queries Q2 to Q6 give, and every
    smoothed value of Q3. *)
Theorem means_within_ratings (df : DataFrame) (lo hi : Q)
    (Hratings : Forall (fun r => within lo hi (rating r)) df)
    (m : Z) (ascending : bool) (ylo yhi w : Z) (top_n : nat)
    (sel : list (option string)) :
  Forall (fun s => within lo hi (mean_rating s)) (Q2 df m ascending)
  /\ Forall (fun r => within lo hi (yr_mean r)
                      /\ match yr_smoothed r with
                         | Some v => within lo hi v
                         | None => True
                         end) (Q3 df ylo yhi m w)
  /\ Forall (fun s => within lo hi (mean_rating s)) (Q4 df m top_n)
  /\ Forall (fun s => within lo hi (mean_rating s)) (Q5 df sel)
  /\ Forall (fun s => within lo hi (mean_rating s)) (Q6 df).
Proof.
  split; [|split; [|split; [|split]]].
  - apply Forall_forall. intros s Hs.
    apply (Permutation_in _ (Q2_perm df m ascending)) in Hs.
    apply filter_In in Hs. destruct Hs as [Hs _]. revert s Hs.
    apply Forall_forall. now apply agg_means_within.
  - destruct (Q3_columns df ylo yhi m w) as [Hc Hs].
    set (F := year_filtered df ylo yhi m) in *.
    assert (HF : Forall (fun s => within lo hi (mean_rating s)) F).
    { apply Forall_forall. intros s Hin. apply year_filtered_In in Hin.
      destruct Hin as [Hin _]. revert s Hin.
      apply Forall_forall. now apply agg_means_within. }
    assert (Hmean : Forall (fun r => within lo hi (yr_mean r)) (Q3 df ylo yhi m w)).
    { rewrite <- Hc, Forall_map in HF. exact HF. }
    assert (Hsm : Forall (fun o => match o with
                                   | Some v => within lo hi v
                                   | None => True
                                   end) (map yr_smoothed (Q3 df ylo yhi m w))).
    { rewrite Hs. unfold smoothed.
      destruct ((1 <? w)%Z && negb (length F =? 0)%nat)%bool eqn:E.
      - apply andb_true_iff in E. destruct E as [E _]. apply Z.ltb_lt in E.
        apply rolling_mean_within; [lia|]. now rewrite Forall_map.
      - rewrite Forall_map. exact HF. }
    rewrite Forall_map in Hsm.
    rewrite Forall_forall in *. intros r Hr. split; [now apply Hmean | now apply Hsm].
  - apply Forall_forall. intros s Hs. unfold Q4 in Hs. apply firstn_incl in Hs.
    apply (Permutation_in _ (stable_sort_perm _ _)) in Hs.
    apply filter_In in Hs. destruct Hs as [Hs _]. revert s Hs.
    apply Forall_forall. now apply agg_means_within.
  - apply agg_means_within. now do 2 apply Forall_filter_keep.
  - apply agg_means_within. now apply Forall_filter_keep.
Qed.
End RatingRange.

(** The ratings of the sample lie between 1 and 5, and so do its means. *)
Lemma means_within_ratings_witness :
  Forall (fun s => within 1 5 (mean_rating s)) (Q6 comedy_drama).
Proof.
  apply (@means_within_ratings stable_argsort comedy_drama 1 5);
    try exact 0%Z; try exact 0%nat; try exact true; try exact [].
  repeat constructor; vm_compute; discriminate.
Defined.

(** ** The order of the groups *)

Section LocalOrder.
Variable A : Type.
Variable le : A -> A -> bool.
Hypothesis le_total : forall x y, le x y = false -> le y x = true.

Lemma insert_by_locally_sorted (x : A) (l : list A) :
  Sorted (fun a b => le a b = true) l ->
  Sorted (fun a b => le a b = true) (insert_by le x l).
Proof.
  induction l as [|y t IH]; intros Hs; simpl.
  - repeat constructor.
  - destruct (le x y) eqn:E.
    + constructor; [exact Hs | now constructor].
    + apply Sorted_inv in Hs. destruct Hs as [Ht Hy].
      constructor; [now apply IH|].
      destruct t as [|z t']; simpl.
      * constructor. now apply le_total.
      * destruct (le x z); constructor; [now apply le_total|].
        now apply HdRel_inv in Hy.
Qed.

Lemma stable_sort_locally_sorted (l : list A) :
  Sorted (fun a b => le a b = true) (stable_sort le l).
Proof.
  induction l as [|x l IH]; [constructor|].
  unfold stable_sort in *. simpl. now apply insert_by_locally_sorted.
Qed.
End LocalOrder.

Lemma Sorted_map_weaken {A B} (f : A -> B) (R : A -> A -> Prop)
    (S : B -> B -> Prop) (l : list A) :
  (forall a b, R a b -> S (f a) (f b)) -> Sorted R l -> Sorted S (map f l).
Proof.
  intros H. induction 1 as [|x l Hl IH Hx]; simpl; constructor; [exact IH|].
  destruct Hx; simpl; constructor. now apply H.
Qed.

Lemma ascii_compare_refl (c : ascii) : Ascii.compare c c = Eq.
Proof. unfold Ascii.compare. apply N.compare_refl. Qed.

Lemma string_compare_refl (a : string) : String.compare a a = Eq.
Proof.
  induction a as [|x a IH]; simpl; [reflexivity|].
  now rewrite ascii_compare_refl.
Qed.

Lemma string_compare_lt_trans (a b c : string) :
  String.compare a b = Lt -> String.compare b c = Lt -> String.compare a c = Lt.
Proof.
  revert b c. induction a as [|x a IH]; intros [|y b] [|z c]; simpl;
    try congruence.
  destruct (Ascii.compare x y) eqn:Exy; destruct (Ascii.compare y z) eqn:Eyz;
    try discriminate; intros H1 H2.
  - apply Ascii.compare_eq_iff in Exy, Eyz. subst.
    rewrite ascii_compare_refl. now apply IH with b.
  - apply Ascii.compare_eq_iff in Exy. subst. now rewrite Eyz.
  - apply Ascii.compare_eq_iff in Eyz. subst. now rewrite Exy.
  - unfold Ascii.compare in *. rewrite N.compare_lt_iff in *.
    replace (N_of_ascii x ?= N_of_ascii z)%N with Lt; [reflexivity|].
    symmetry. apply N.compare_lt_iff. now apply N.lt_trans with (N_of_ascii y).
Qed.

Lemma string_leb_trans (a b c : string) :
  String.leb a b = true -> String.leb b c = true -> String.leb a c = true.
Proof.
  unfold String.leb.
  destruct (String.compare a b) eqn:Eab; try discriminate;
    destruct (String.compare b c) eqn:Ebc; try discriminate; intros _ _.
  - apply String.compare_eq_iff in Eab, Ebc. subst.
    now rewrite string_compare_refl.
  - apply String.compare_eq_iff in Eab. subst. now rewrite Ebc.
  - apply String.compare_eq_iff in Ebc. subst. now rewrite Eab.
  - now rewrite (string_compare_lt_trans a b c).
Qed.

Lemma genre_leb_trans (x y z : option string) :
  genre_leb x y = true -> genre_leb y z = true -> genre_leb x z = true.
Proof.
  destruct x as [a|], y as [b|], z as [c|]; simpl; try congruence.
  apply string_leb_trans.
Qed.

Lemma genre_leb_total (x y : option string) :
  genre_leb x y = false -> genre_leb y x = true.
Proof.
  destruct x as [a|], y as [b|]; simpl; try congruence.
  intros H. destruct (String.leb_total a b); congruence.
Qed.

Lemma age_genre_leb_total (x y : Z * option string) :
  age_genre_leb x y = false -> age_genre_leb y x = true.
Proof.
  unfold age_genre_leb, pair_leb. rewrite (Z.eqb_sym (fst y)).
  destruct (Z.eqb (fst x) (fst y)) eqn:E.
  - apply genre_leb_total.
  - rewrite Z.leb_gt, Z.leb_le. lia.
Qed.

Lemma age_genre_leb_trans (x y z : Z * option string) :
  age_genre_leb x y = true -> age_genre_leb y z = true ->
  age_genre_leb x z = true.
Proof.
  unfold age_genre_leb, pair_leb.
  destruct (Z.eqb_spec (fst x) (fst y)) as [Exy|Nxy];
    destruct (Z.eqb_spec (fst y) (fst z)) as [Eyz|Nyz];
    destruct (Z.eqb_spec (fst x) (fst z)) as [Exz|Nxz];
    rewrite ?Z.leb_le; try lia.
  apply genre_leb_trans.
Qed.

Lemma age_genre_leb_age (x y : Z * option string) :
  age_genre_leb x y = true -> (fst x <= fst y)%Z.
Proof.
  unfold age_genre_leb, pair_leb.
  destruct (Z.eqb (fst x) (fst y)) eqn:E.
  - apply Z.eqb_eq in E. lia.
  - apply Z.leb_le.
Qed.

(** ** Q6: volume against quality *)

(** X8.  Q6 has one row per genre label of the table, in the
    alphabetical order of the labels, and each row is the row that Q2
    computes for that genre before its filter; rows without genre are left
    out.  On a table without null genre, Q6 is the whole genre statistics
    of Q2. *)
Theorem Q6_volume_quality (df : DataFrame) :
  NoDup (map (@key _) (Q6 df))
  /\ (forall s, In s (Q6 df) <-> In s (genre_stats df) /\ key s <> None)
  /\ StronglySorted (fun a b => genre_leb (key a) (key b) = true) (Q6 df)
  /\ (Forall (fun r => genres r <> None) df -> Q6 df = genre_stats df).
Proof.
  split; [apply agg_groupby_NoDup|]. split; [|split].
  - intros s. unfold Q6, genre_stats. rewrite !agg_groupby_In.
    assert (Hrows : key s <> None ->
                    rows_of genre_eq_dec genres (key s) (filter genre_notna df)
                    = rows_of genre_eq_dec genres (key s) df).
    { intros Hk. apply rows_of_filter. intros r E _. unfold genre_notna.
      rewrite E. destruct (key s); [reflexivity | congruence]. }
    split.
    + intros [Hk [Hm Hn]].
      assert (Hnn : key s <> None).
      { apply in_map_iff in Hk. destruct Hk as [r [<- Hr]].
        apply filter_In in Hr. unfold genre_notna in Hr.
        destruct (genres r); [discriminate | destruct Hr; discriminate]. }
      rewrite (Hrows Hnn) in Hm, Hn. repeat split; try assumption.
      apply in_map_iff in Hk. destruct Hk as [r [<- Hr]].
      apply in_map. apply filter_In in Hr. tauto.
    + intros [[Hk [Hm Hn]] Hnn]. rewrite (Hrows Hnn). repeat split; try assumption.
      apply in_map_iff in Hk. destruct Hk as [r [E Hr]].
      apply in_map_iff. exists r. split; [exact E|].
      apply filter_In. split; [exact Hr|]. unfold genre_notna. rewrite E.
      destruct (key s); [reflexivity | congruence].
  - apply Sorted_StronglySorted.
    { intros a b c. apply genre_leb_trans. }
    unfold Q6, agg, groupby. rewrite map_map.
    apply (Sorted_map_weaken _ (R := fun a b => genre_leb a b = true));
      [intros a b H; exact H|].
    apply stable_sort_locally_sorted. apply genre_leb_total.
  - intros Hnn. unfold Q6, genre_stats. rewrite filter_all; [reflexivity|].
    intros r Hr. rewrite Forall_forall in Hnn. specialize (Hnn r Hr).
    unfold genre_notna. destruct (genres r); [reflexivity | congruence].
Qed.

(** The sample has no null genre. *)
Lemma Q6_volume_quality_witness : Q6 comedy_drama = genre_stats comedy_drama.
Proof.
  apply (Q6_volume_quality comedy_drama).
  repeat constructor; discriminate.
Defined.

(** ** Q5: the selection and the order of the rows *)

Lemma Q5_In (df : DataFrame) (sel : list (option string))
    (s : Stats (Z * option string)) :
  In s (Q5 df sel) <->
  exists label,
    snd (key s) = Some label /\ In (Some label) sel
    /\ In (fst (key s), Some label) (map (fun r => (age r, genres r)) df)
    /\ mean_rating s = Qmean (map rating (rows_age_genre df (fst (key s)) label))
    /\ n_ratings s = Z.of_nat (length (rows_age_genre df (fst (key s)) label)).
Proof.
  unfold Q5. rewrite agg_groupby_In.
  set (sub := filter genre_notna (filter (fun r => isin (genres r) sel) df)).
  assert (Hrows : forall a label,
             In (Some label) sel ->
             rows_of age_genre_eq_dec (fun r => (age r, genres r)) (a, Some label) sub
             = rows_age_genre df a label).
  { intros a label Hsel. unfold sub. rewrite !rows_of_filter; [reflexivity | |].
    - intros r Er _. injection Er as _ Eg. apply isin_In. now rewrite Eg.
    - intros r Er _. injection Er as _ Eg. unfold genre_notna. now rewrite Eg. }
  destruct (key s) as [a g] eqn:Ek. simpl. split.
  - intros [Hk [Hm Hn]]. apply in_map_iff in Hk. destruct Hk as [r [E Hr]].
    injection E as <- <-. unfold sub in Hr. rewrite !filter_In, isin_In in Hr.
    destruct Hr as [[Hdf Hsel] Hnn]. unfold genre_notna in Hnn.
    destruct (genres r) as [label|] eqn:Eg; [|discriminate].
    exists label. rewrite (Hrows (age r) label Hsel) in Hm, Hn.
    repeat split; try assumption.
    apply in_map_iff. exists r. now rewrite Eg.
  - intros [label [-> [Hsel [Hk [Hm Hn]]]]]. rewrite (Hrows a label Hsel).
    repeat split; try assumption.
    apply in_map_iff in Hk. destruct Hk as [r [E Hr]].
    apply in_map_iff. exists r. split; [exact E|].
    injection E as _ Eg. unfold sub. rewrite !filter_In, isin_In, Eg.
    unfold genre_notna. rewrite Eg. tauto.
Qed.

Lemma filter_agree {A} (f g : A -> bool) (l : list A) :
  (forall x, In x l -> f x = g x) -> filter f l = filter g l.
Proof.
  induction l as [|x l IH]; intros H; simpl; [reflexivity|].
  rewrite (H x (or_introl eq_refl)), IH; [reflexivity|].
  intros y Hy. apply H. now right.
Qed.

(** X13.  The result of Q5 depends only on which genres of the table are
    selected: two selections that hold the same genres of the table, in
    any order and with any repetitions or labels foreign to the table,
    give the same table.  A larger selection only adds rows: the rows of
    the smaller selection stay as they are. *)
Theorem Q5_selection (df : DataFrame) (sel sel' : list (option string)) :
  ((forall g, In g (map genres df) -> (In g sel <-> In g sel')) ->
   Q5 df sel = Q5 df sel')
  /\ ((forall g, In g sel -> In g sel') ->
      forall s, In s (Q5 df sel) -> In s (Q5 df sel')).
Proof.
  split.
  - intros H. unfold Q5. do 3 f_equal. apply filter_agree.
    intros r Hr. specialize (H (genres r) (in_map genres df r Hr)).
    destruct (isin (genres r) sel) eqn:E1, (isin (genres r) sel') eqn:E2;
      try reflexivity.
    + apply isin_In, H, isin_In in E1. congruence.
    + apply isin_In, H, isin_In in E2. congruence.
  - intros H s. rewrite !Q5_In. intros [label [Hk [Hsel Hrest]]].
    exists label. repeat split; try tauto. now apply H.
Qed.

(** A repeated label, another order and a label that the table does not
    have change nothing. *)
Lemma Q5_selection_witness :
  Q5 comedy_drama [Some "Drama"; Some "Comedy"; Some "Drama"; Some "Western"]%string
  = Q5 comedy_drama [Some "Comedy"; Some "Drama"]%string.
Proof.
  apply (Q5_selection comedy_drama).
  intros g Hg. simpl in Hg.
  destruct Hg as [<- | [<- | [<- | []]]]; simpl; tauto.
Defined.

(** X15.  The rows of Q5 are ordered by age, and the rows of one age by
    genre label: the line chart gets its points from left to right. *)
Theorem Q5_order (df : DataFrame) (sel : list (option string)) :
  StronglySorted (fun a b => age_genre_leb (key a) (key b) = true) (Q5 df sel)
  /\ StronglySorted Z.le (map (fun s => fst (key s)) (Q5 df sel)).
Proof.
  assert (Hs : Sorted (fun a b => age_genre_leb (key a) (key b) = true) (Q5 df sel)).
  { unfold Q5, agg, groupby. rewrite map_map.
    apply (Sorted_map_weaken _ (R := fun a b => age_genre_leb a b = true));
      [intros a b H; exact H|].
    apply stable_sort_locally_sorted. apply age_genre_leb_total. }
  split.
  { apply Sorted_StronglySorted; [|exact Hs].
    intros a b c. apply age_genre_leb_trans. }
  apply Sorted_StronglySorted; [intros x y z; apply Z.le_trans|].
  revert Hs. apply Sorted_map_weaken.
  intros a b. apply age_genre_leb_age.
Qed.

Lemma unique_In {A} (eq_dec : forall x y : A, {x = y} + {x <> y})
    (l : list A) (x : A) :
  In x (unique eq_dec l) <-> In x l.
Proof.
  induction l as [|y l IH]; simpl; [tauto|].
  rewrite filter_In, IH. destruct (eq_dec x y) as [->|Hne].
  - tauto.
  - split; [tauto|]. intros [E | Hx]; [congruence | tauto].
Qed.

Lemma unique_NoDup {A} (eq_dec : forall x y : A, {x = y} + {x <> y})
    (l : list A) :
  NoDup (unique eq_dec l).
Proof.
  induction l as [|y l IH]; simpl; constructor.
  - rewrite filter_In. intros [_ H]. destruct (eq_dec y y); congruence.
  - now apply NoDup_filter.
Qed.

(** X14.  The default of the genre multiselect holds at most four genres,
    without repetition; each is one of the options, which are the genres
    of the table; the genre of the first row is the first of them; and
    when the table has at most four genres the default selects them all. *)
Theorem default_genres_spec (df : DataFrame) :
  NoDup (default_genres df)
  /\ (length (default_genres df) <= 4)%nat
  /\ (forall g, In g (default_genres df) -> In g (genre_options df))
  /\ (forall g, In g (genre_options df) <-> In g (map genres df))
  /\ hd_error (default_genres df) = hd_error (map genres df)
  /\ ((length (genre_options df) <= 4)%nat ->
      default_genres df = genre_options df
      /\ Q5 df (default_genres df) = Q5 df (map genres df)).
Proof.
  unfold default_genres. split; [|split; [|split; [|split; [|split]]]].
  - pose proof (unique_NoDup genre_eq_dec (map genres df)) as Hnd.
    fold (genre_options df) in Hnd.
    rewrite <- (firstn_skipn 4 (genre_options df)) in Hnd.
    now apply NoDup_app_remove_r in Hnd.
  - rewrite length_firstn. lia.
  - intros g. apply firstn_incl.
  - intros g. apply unique_In.
  - unfold genre_options. destruct (map genres df); reflexivity.
  - intros Hlen. rewrite firstn_all2 by exact Hlen. split; [reflexivity|].
    apply Q5_selection. intros g _. apply unique_In.
Qed.

(** The sample has two genres: both are selected by default. *)
Lemma default_genres_spec_witness :
  default_genres comedy_drama = genre_options comedy_drama
  /\ Q5 comedy_drama (default_genres comedy_drama)
     = Q5 comedy_drama (map genres comedy_drama).
Proof.
  apply (default_genres_spec comedy_drama). vm_compute. lia.
Defined.

(** ** Q7: what the cleaning keeps *)

Lemma split_on_join (sep : ascii) (s : string) :
  String.concat (String sep EmptyString) (split_on sep s) = s.
Proof.
  induction s as [|c t IH]; [reflexivity|].
  simpl split_on. pose proof (split_on_nonempty sep t) as Hne.
  destruct (Ascii.eqb c sep) eqn:E.
  - apply Ascii.eqb_eq in E. subst c.
    destruct (split_on sep t) as [|h r]; [congruence|].
    simpl in *. now rewrite IH.
  - destruct (split_on sep t) as [|h r]; [congruence|].
    destruct r as [|h' r']; simpl in *; now rewrite <- IH.
Qed.

Lemma split_on_clean (sep : ascii) (s : string) :
  Forall (fun tok => has_char sep tok = false) (split_on sep s).
Proof.
  induction s as [|c t IH]; simpl; [repeat constructor|].
  destruct (Ascii.eqb c sep) eqn:E.
  - constructor; [reflexivity | exact IH].
  - destruct (split_on sep t) as [|h r]; [repeat constructor; simpl; now rewrite E|].
    inversion IH as [|? ? Hh Hr]; subst.
    constructor; [simpl; now rewrite E, Hh | exact Hr].
Qed.

Lemma split_on_length (sep : ascii) (s : string) :
  length (split_on sep s) = S (count_char sep s).
Proof.
  induction s as [|c t IH]; simpl; [reflexivity|].
  destruct (Ascii.eqb c sep) eqn:E; simpl.
  - now rewrite IH.
  - destruct (split_on sep t) as [|h r]; simpl in *; [discriminate | exact IH].
Qed.

Lemma exploded_filled (i : nat) (r : Row) :
  exploded_row i (set_genres (fillna no_genres_listed (genres r)) r)
  = map (fun tok => (i, set_genres (Some tok) r))
        (split_on pipe (filled_genre r)).
Proof.
  unfold exploded_row, filled_genre. simpl.
  destruct (genres r) as [g|]; simpl.
  - pose proof (split_on_nonempty pipe g) as Hne.
    destruct (split_on pipe g); [congruence | reflexivity].
  - reflexivity.
Qed.

Lemma Q7_filled_map (df_ec : DataFrame) :
  Q7_filled df_ec
  = map (fun r => set_genres (fillna no_genres_listed (genres r)) r) df_ec.
Proof. apply assign_genres_map. Qed.

Lemma Q7_cleaned_filled (df_ec : DataFrame) :
  Q7_cleaned (Q7_filled df_ec)
  = flat_map (fun p => map (fun tok => (fst p, set_genres (Some tok) (snd p)))
                           (split_on pipe (filled_genre (snd p))))
             (combine (seq 0 (length df_ec)) df_ec).
Proof.
  rewrite Q7_cleaned_rows, Q7_filled_map, length_map.
  generalize 0%nat as k.
  induction df_ec as [|r df IH]; intros k; simpl; [reflexivity|].
  now rewrite IH, exploded_filled.
Qed.

(** X16.  The cleaning loses nothing of a genre: for every row of the
    table, the genres of the rows derived from it, joined by pipes in
    their order, are the genre of the row, or "(no genres listed)" when
    it had none. *)
Theorem Q7_round_trip (df_ec : DataFrame) (i : nat) (r : Row)
    (Hrow : nth_error df_ec i = Some r) :
  String.concat "|"%string
    (genre_texts (filter (fun x => Nat.eqb (fst x) i)
                         (Q7_cleaned (Q7_filled df_ec))))
  = filled_genre r.
Proof.
  rewrite Q7_cleaned_rows.
  pose proof (@filter_index_exploded (Q7_filled df_ec) 0 i
                (set_genres (fillna no_genres_listed (genres r)) r)) as Hf.
  change (0 + i)%nat with i in Hf. rewrite Hf.
  - rewrite exploded_filled. unfold genre_texts.
    rewrite flat_map_concat_map, map_map. simpl.
    rewrite <- flat_map_concat_map.
    replace (flat_map (fun x : string => [x]) (split_on pipe (filled_genre r)))
      with (split_on pipe (filled_genre r)).
    + apply split_on_join.
    + induction (split_on pipe (filled_genre r)) as [|t ts IH];
        simpl; [reflexivity | now rewrite <- IH].
  - now rewrite Q7_filled_map, nth_error_map, Hrow.
Qed.

Lemma Q7_round_trip_witness :
  String.concat "|"%string
    (genre_texts (filter (fun x => Nat.eqb (fst x) 1)
                         (Q7_cleaned (Q7_filled (null_genre ++ [action_comedy])))))
  = "Action|Comedy"%string.
Proof.
  apply (@Q7_round_trip (null_genre ++ [action_comedy]) 1 action_comedy).
  reflexivity.
Defined.

(** X17.  Every row of the cleaned table comes from the row of the table
    at its index: it has the cells of that row, and its genre is one of
    the pieces of that row's genre, never null and without a pipe. *)
Theorem Q7_cleaned_rows_clean (df_ec : DataFrame) :
  Forall (fun x =>
            exists r tok,
              nth_error df_ec (fst x) = Some r
              /\ snd x = set_genres (Some tok) r
              /\ In tok (split_on pipe (filled_genre r))
              /\ has_char pipe tok = false)
         (Q7_cleaned (Q7_filled df_ec)).
Proof.
  rewrite Q7_cleaned_filled. apply Forall_forall. intros x Hx.
  apply in_flat_map in Hx. destruct Hx as [[i r] [Hp Hx]]. simpl in Hx.
  apply in_map_iff in Hx. destruct Hx as [tok [<- Htok]]. simpl.
  exists r, tok. repeat split; try assumption.
  - pose proof (combine_seq_nth df_ec 0) as H. rewrite Forall_forall in H.
    destruct (H (i, r) Hp) as [E _]. simpl in E. now rewrite Nat.sub_0_r in E.
  - pose proof (split_on_clean pipe (filled_genre r)) as H.
    rewrite Forall_forall in H. now apply H.
Qed.

Lemma fill_idempotent (df_ec : DataFrame) :
  Q7_filled (Q7_filled df_ec) = Q7_filled df_ec.
Proof.
  rewrite !Q7_filled_map, map_map. apply map_ext.
  intros [u m t g x y a]. simpl. now destruct g.
Qed.

(** X18.  After Q7 no genre of its table is null, and running the tab a
    second time on the table it left changes neither the table nor the
    cleaned preview. *)
Theorem Q7_twice (h : Heap) :
  Forall (fun r => genres r <> None) (h_df_ec (snd (tab_Q7 h)))
  /\ snd (tab_Q7 (snd (tab_Q7 h))) = snd (tab_Q7 h)
  /\ snd (fst (tab_Q7 (snd (tab_Q7 h)))) = snd (fst (tab_Q7 h)).
Proof.
  destruct h as [d e].
  assert (E : snd (tab_Q7 (mkHeap d e)) = mkHeap d (Q7_filled e)) by reflexivity.
  rewrite E. split; [|split].
  - simpl. rewrite Q7_filled_map. apply Forall_forall. intros r Hr.
    apply in_map_iff in Hr. destruct Hr as [r0 [<- _]]. simpl.
    destruct (genres r0); discriminate.
  - change (snd (tab_Q7 (mkHeap d (Q7_filled e))))
      with (mkHeap d (Q7_filled (Q7_filled e))).
    now rewrite fill_idempotent.
  - change (snd (fst (tab_Q7 (mkHeap d (Q7_filled e)))))
      with (head 5 (Q7_cleaned (Q7_filled (Q7_filled e)))).
    now rewrite fill_idempotent.
Qed.

Lemma exploded_indices (df : DataFrame) (k : nat) :
  let idx := map fst (flat_map (fun p => map (fun tok => (fst p, set_genres (Some tok) (snd p)))
                                             (split_on pipe (filled_genre (snd p))))
                               (combine (seq k (length df)) df)) in
  StronglySorted Nat.le idx /\ Forall (fun i => (k <= i)%nat) idx.
Proof.
  revert k. induction df as [|r df IH]; intros k; simpl.
  - split; constructor.
  - destruct (IH (S k)) as [Hs Hge]. rewrite map_app, map_map. simpl.
    assert (Hblock : forall toks : list string,
               StronglySorted Nat.le (map (fun _ => k) toks)
               /\ Forall (fun i => i = k) (map (fun _ => k) toks)).
    { induction toks as [|t ts [H1 H2]]; simpl; split; constructor;
        try assumption; try reflexivity.
      revert H2. apply Forall_impl. intros i ->. apply Nat.le_refl. }
    destruct (Hblock (split_on pipe (filled_genre r))) as [Hb1 Hb2]. split.
    + apply StronglySorted_app; [exact Hb1 | exact Hs|].
      intros a b Ha Hb. rewrite Forall_forall in Hb2, Hge.
      rewrite (Hb2 a Ha). specialize (Hge b Hb). lia.
    + apply Forall_app. split.
      * revert Hb2. apply Forall_impl. intros i ->. apply Nat.le_refl.
      * revert Hge. apply Forall_impl. intros i Hi. lia.
Qed.

(** X19.  The cleaned table has one row per genre piece: its size is the
    size of the table plus the number of pipes in its genres, and its
    rows follow the order of the table, the rows of one source row
    together.  When no genre of the table holds a pipe, the cleaning only
    fills the nulls: the cleaned table is the filled table under the same
    indices. *)
Theorem Q7_cleaned_shape (df_ec : DataFrame) :
  length (Q7_cleaned (Q7_filled df_ec))
  = (length df_ec
     + list_sum (map (fun r => count_char pipe (filled_genre r)) df_ec))%nat
  /\ StronglySorted Nat.le (map fst (Q7_cleaned (Q7_filled df_ec)))
  /\ (Forall (fun r => has_char pipe (filled_genre r) = false) df_ec ->
      Q7_cleaned (Q7_filled df_ec)
      = combine (seq 0 (length df_ec)) (Q7_filled df_ec)).
Proof.
  rewrite Q7_cleaned_filled. split; [|split].
  - generalize 0%nat as k.
    induction df_ec as [|r df IH]; intros k; simpl; [reflexivity|].
    rewrite length_app, length_map, split_on_length, IH. lia.
  - apply (exploded_indices df_ec 0).
  - intros Hclean. rewrite Q7_filled_map. generalize 0%nat as k.
    induction Hclean as [|r df Hr Hdf IH]; intros k; simpl; [reflexivity|].
    rewrite IH, (split_on_no_sep _ _ Hr). simpl. do 2 f_equal.
    unfold filled_genre. destruct r as [u m t g x y a]. simpl. now destruct g.
Qed.

(** The sample has no composite genre. *)
Lemma Q7_cleaned_shape_witness :
  Q7_cleaned (Q7_filled comedy_drama)
  = combine (seq 0 (length comedy_drama)) (Q7_filled comedy_drama).
Proof.
  apply (Q7_cleaned_shape comedy_drama). repeat constructor.
Defined.

(** ** The path of the data and the guarded loads *)

(** X20.  The loaders look for the data three levels above the script:
    for a script at [root/a/b/c] the file is [root/data/movie_ratings.csv],
    whatever the three last components are; for a script less than three
    components deep there is no such path. *)
Theorem data_path_spec (file_ : Path) :
  (data_path file_ = None <-> (length file_ <= 2)%nat)
  /\ (forall root a b c,
         file_ = root ++ [a; b; c] ->
         data_path file_
         = Some (root ++ ["data"%string; "movie_ratings.csv"%string])).
Proof.
  unfold data_path, parents. split.
  - destruct (2 <? length file_)%nat eqn:E; simpl.
    + apply Nat.ltb_lt in E. split; [discriminate | lia].
    + apply Nat.ltb_ge in E. tauto.
  - intros root a b c ->. rewrite length_app. simpl length.
    replace (2 <? length root + 3)%nat with true
      by (symmetry; apply Nat.ltb_lt; lia).
    simpl. do 2 f_equal.
    replace (length root + 3 - 3)%nat with (length root + 0)%nat by lia.
    rewrite firstn_app_2. simpl. apply app_nil_r.
Qed.

Lemma data_path_spec_witness :
  data_path ["repo"; "Week-03-EDA-and-Dashboards"; "exercise";
             "hussam_dashboard"; "app.py"]%string
  = Some ["repo"; "Week-03-EDA-and-Dashboards"; "data"; "movie_ratings.csv"]%string.
Proof.
  apply (data_path_spec _) with (root := ["repo"; "Week-03-EDA-and-Dashboards"]%string)
                                (a := "exercise"%string)
                                (b := "hussam_dashboard"%string)
                                (c := "app.py"%string).
  reflexivity.
Defined.

Section MainLoadFacts.
Variable Content : Type.
Variable read_csv : Content -> option DataFrame.

(** X21.  [main] shows its missing-file banner exactly when the data path
    exists and holds no file; a script that is not deep enough and a file
    that does not parse leave [main] by an exception.  Once [main] has
    its table, the Q7 tab on the same file system never shows its own
    banner and never raises: it works on a table equal to [df], previews
    its first five rows, and leaves [df] as it is. *)
Theorem main_loads (file_ : Path) (fs : FileSystem Content) :
  ((exists msg, main_load read_csv file_ fs = Shows msg) <->
   exists p, data_path file_ = Some p /\ fs p = None)
  /\ (main_load read_csv file_ fs = Raises IndexError <-> data_path file_ = None)
  /\ (forall df,
         main_load read_csv file_ fs = Gives df ->
         main_Q7 read_csv file_ fs df = Gives (tab_Q7 (mkHeap df df))
         /\ fst (fst (tab_Q7 (mkHeap df df))) = head 5 df
         /\ h_df (snd (tab_Q7 (mkHeap df df))) = df).
Proof.
  unfold main_load, main_Q7, load_movie_ratings, load_movie_ratings_ec,
    data_path, pd_read_csv.
  destruct (parents file_ 2) as [dir|]; simpl.
  - destruct (fs (dir ++ ["data"%string; "movie_ratings.csv"%string])) as [c|] eqn:E.
    + destruct (read_csv c) as [t|]; repeat split; try discriminate.
      * intros [msg H]. discriminate.
      * intros [p [Hp Hn]]. injection Hp as <-. congruence.
      * injection H as <-. reflexivity.
      * intros [msg H]. discriminate.
      * intros [p [Hp Hn]]. injection Hp as <-. congruence.
    + repeat split; try discriminate.
      * intros _. eexists. split; [reflexivity | exact E].
      * intros _. eexists. reflexivity.
  - repeat split; try discriminate.
    + intros [msg H]. discriminate.
    + intros [p [Hp _]]. discriminate.
Qed.
End MainLoadFacts.

Lemma main_loads_witness :
  main_Q7 (fun t : DataFrame => Some t)
          ["repo"; "week"; "exercise"; "dash"; "app.py"]%string data_only
          comedy_drama
  = Gives (tab_Q7 (mkHeap comedy_drama comedy_drama)).
Proof.
  apply (@main_loads DataFrame (fun t => Some t)
           ["repo"; "week"; "exercise"; "dash"; "app.py"]%string data_only).
  reflexivity.
Defined.

(** ** The threshold of Q1 *)

Lemma Zsum_filter_mono {A} (c : A -> Z) (f g : A -> bool) (l : list A) :
  (forall x, In x l -> (0 <= c x)%Z) ->
  (forall x, f x = true -> g x = true) ->
  (Zsum (map c (filter f l)) <= Zsum (map c (filter g l)))%Z.
Proof.
  intros Hpos Himp. induction l as [|x l IH]; simpl; [lia|].
  assert (IH' : (Zsum (map c (filter f l)) <= Zsum (map c (filter g l)))%Z).
  { apply IH. intros y Hy. apply Hpos. now right. }
  pose proof (Hpos x (or_introl eq_refl)) as Hx.
  destruct (f x) eqn:Ef.
  - rewrite (Himp x Ef). simpl. lia.
  - destruct (g x); simpl; lia.
Qed.

Section Q1Threshold.
Context {AS : Argsort}.

(** X22.  Raising the threshold of Q1 only moves genres into "Other":
    the genre rows under the higher threshold are among those under the
    lower one, the genres folded under the lower threshold stay folded,
    and the count of "Other" does not decrease. *)
Theorem Q1_threshold_monotone (df : DataFrame) (p p' : Q) (Hp : (p <= p')%Q) :
  (forall g, In g (major df p') -> In g (major df p))
  /\ (forall g, In g (minor df p) -> In g (minor df p'))
  /\ (gc_count (other_row df p) <= gc_count (other_row df p'))%Z.
Proof.
  assert (Hle : forall g, Qle_bool p' (gc_pct g) = true ->
                          Qle_bool p (gc_pct g) = true).
  { intros g. rewrite !Qle_bool_iff. intros H. now apply Qle_trans with p'. }
  assert (Hlt : forall g, Qlt_bool (gc_pct g) p = true ->
                          Qlt_bool (gc_pct g) p' = true).
  { intros g. unfold Qlt_bool. rewrite !negb_true_iff. intros H.
    destruct (Qle_bool p' (gc_pct g)) eqn:E; [|reflexivity].
    rewrite (Hle g E) in H. discriminate. }
  split; [|split].
  - intros g. unfold major. rewrite !filter_In. intros [Hg H]. split; auto.
  - intros g. unfold minor. rewrite !filter_In. intros [Hg H]. split; auto.
  - unfold other_row, minor. simpl. apply Zsum_filter_mono; [|exact Hlt].
    intros g Hg. apply (Permutation_in _ (genre_counts_perm df)) in Hg.
    apply in_map_iff in Hg. destruct Hg as [label [<- _]]. simpl.
    unfold count_of. lia.
Qed.
End Q1Threshold.

(** From a threshold of 0 to one of 50 percent the "Other" count of the
    sample goes from 0 to 1. *)
Lemma Q1_threshold_monotone_witness :
  (gc_count (@other_row stable_argsort comedy_drama 0)
   <= gc_count (@other_row stable_argsort comedy_drama 50))%Z.
Proof.
  apply (@Q1_threshold_monotone stable_argsort comedy_drama 0 50).
  vm_compute. discriminate.
Defined.
